(** * pyRevit base components: a shallow embedding of [_basecomponents.py]

    The component tree of pyRevit ([GenericContainer], [GenericCommand] and
    their subclasses) is embedded as Rocq functions.  Python strings are
    [string], Python lists are [list] read with [!!] and written with
    [<[i:=x]>], exceptions are the [Raise] outcome of a small state-and-error
    monad, and the logger is a list of records kept in the state. *)

From Stdlib Require Import ZArith Ascii.
From stdpp Require Import base list strings.

Set Warnings "-register-all".
Local Open Scope Z_scope.

(** ** Python built-ins used by the module *)

(** [len(s)]. *)
Definition len (s : string) : Z := Z.of_nat (String.length s).

(** [s[:n]] and [s[n:]] for an index [n] that is not negative. *)
Fixpoint str_take (n : nat) (s : string) : string :=
  match n, s with
  | S n', String c r => String c (str_take n' r)
  | _, _ => ""
  end.

Fixpoint str_drop (n : nat) (s : string) : string :=
  match n, s with
  | S n', String _ r => str_drop n' r
  | _, _ => s
  end.

Definition slice_to (s : string) (i : Z) : string := str_take (Z.to_nat i) s.
Definition slice_from (s : string) (i : Z) : string := str_drop (Z.to_nat i) s.

(** [s.rfind(c)] for a one-character [c]: the highest index holding [c],
    or [-1]. *)
Fixpoint rfind (s : string) (c : ascii) : Z :=
  match s with
  | "" => -1
  | String a r =>
      let k := rfind r c in
      if 0 <=? k then k + 1 else if Ascii.eqb a c then 0 else -1
  end.

(** [s.endswith(suffix)]. *)
Definition endswith (s suffix : string) : bool :=
  (len suffix <=? len s) && String.eqb (slice_from s (len s - len suffix)) suffix.

(** [s.split(sep)] for a one-character separator. *)
Fixpoint split (s : string) (sep : ascii) : list string :=
  match s with
  | "" => [ "" ]
  | String a r =>
      if Ascii.eqb a sep then "" :: split r sep
      else match split r sep with
           | h :: t => String a h :: t
           | [] => [ String a "" ]
           end
  end.

(** [s.replace(c, '')] for a one-character [c]. *)
Fixpoint remove_char (c : ascii) (s : string) : string :=
  match s with
  | "" => ""
  | String a r => if Ascii.eqb a c then remove_char c r else String a (remove_char c r)
  end.

(** Truth value of a string and of an optional string ([None] and [''] are
    false). *)
Definition truthy (o : option string) : bool :=
  match o with
  | Some (String _ _) => true
  | _ => false
  end.

(** Truth value of a list ([[]] is false). *)
Definition nonempty {A} (l : list A) : bool :=
  match l with [] => false | _ :: _ => true end.

(** ** [os.path], POSIX flavour as in the docstrings of the module *)

Definition sep : ascii := "/"%char.
Definition extsep : ascii := "."%char.

(** [posixpath.basename]: [i = p.rfind(sep) + 1; return p[i:]]. *)
Definition basename (p : string) : string :=
  let i := rfind p sep + 1 in
  slice_from p i.

(** The [while filenameIndex < dotIndex] loop of [genericpath._splitext],
    [n] being the number of indices still to visit. *)
Fixpoint skip_leading_dots (p : string) (filenameIndex : Z) (n : nat) (dotIndex : Z)
  : string * string :=
  match n with
  | O => (p, "")
  | S n' =>
      if negb (String.eqb (str_take 1 (slice_from p filenameIndex)) (String extsep ""))
      then (slice_to p dotIndex, slice_from p dotIndex)
      else skip_leading_dots p (filenameIndex + 1) n' dotIndex
  end.

(** [posixpath.splitext] ([genericpath._splitext] with no [altsep]). *)
Definition splitext (p : string) : string * string :=
  let sepIndex := rfind p sep in
  let dotIndex := rfind p extsep in
  if sepIndex <? dotIndex then
    let filenameIndex := sepIndex + 1 in
    skip_leading_dots p filenameIndex (Z.to_nat (dotIndex - filenameIndex)) dotIndex
  else (p, "").

(** [posixpath.join(a, b)]. *)
Definition join (a b : string) : string :=
  match b with
  | String c _ =>
      if Ascii.eqb c sep then b
      else if String.eqb a "" || endswith a (String sep "") then a +:+ b
      else a +:+ String sep b
  | "" =>
      if String.eqb a "" || endswith a (String sep "") then a
      else a +:+ String sep ""
  end.

(** ** Outcomes, the logger and the monad *)

Inductive exn : Type :=
| PyRevitUnknownFormatError
| PyRevitNoScriptFileError
| IndexError
| AttributeError
| IOError.

Inductive result (A : Type) : Type :=
| Ok (a : A)
| Raise (e : exn).
Arguments Ok {A} a.
Arguments Raise {A} e.

(** A value handed to [str.format]. *)
Inductive PyVal : Type :=
| PStr (s : string)
| PNone
| PList (l : list PyVal).

Inductive level : Type := DEBUG | ERROR.

(** [logger.debug(fmt.format(a, b))] is recorded as [(DEBUG, fmt, [a; b])]. *)
Record LogRecord : Type := { lvl : level; fmt : string; args : list PyVal }.

Definition pyopt (o : option string) : PyVal :=
  match o with Some s => PStr s | None => PNone end.

(** State and exceptions: a raised exception keeps the state reached. *)
Definition M (S A : Type) : Type := S → result A * S.

Definition raise {S A} (e : exn) : M S A := λ s, (Raise e, s).
Definition modify {S} (f : S → S) : M S unit := λ s, (Ok tt, f s).
Definition gets {S A} (f : S → A) : M S A := λ s, (Ok (f s), s).

#[global] Instance M_ret {S} : MRet (M S) := λ A a s, (Ok a, s).
#[global] Instance M_bind {S} : MBind (M S) := λ A B k m s,
  match m s with
  | (Ok a, s') => k a s'
  | (Raise e, s') => (Raise e, s')
  end.

Abbreviation Log := (list LogRecord).

Definition logger (l : level) (f : string) (a : list PyVal) : M Log unit :=
  modify (λ log, log ++ [ {| lvl := l; fmt := f; args := a |} ]).

(** An attribute that only some instances are given: reading one that was
    never set raises [AttributeError]. *)
Inductive attribute (A : Type) : Type :=
| Unset
| Attr (a : A).
Arguments Unset {A}.
Arguments Attr {A} a.

Definition getattr {A} (x : attribute A) : result A :=
  match x with
  | Attr a => Ok a
  | Unset => Raise AttributeError
  end.

(** [if c: body]. *)
Definition when {S} (c : bool) (body : M S unit) : M S unit :=
  if c then body else mret tt.

(** ** The collaborators of the module

    [.config], [.utils], [.usersettings] and the file system are not part of
    the module: their constants and functions are the fields of [Host].
    The two that read a file can fail: [readlines] is [None] when [open] or
    the read raises ([IOError]), and [ScriptFileContents] is [None] when the
    constructor of that class of [.utils] raises on its file, which is
    counted as the same error. *)
Class Host : Type := {
  (* .config *)
  PACKAGE_POSTFIX : string;
  TAB_POSTFIX : string;
  PANEL_POSTFIX : string;
  LINK_BUTTON_POSTFIX : string;
  PUSH_BUTTON_POSTFIX : string;
  TOGGLE_BUTTON_POSTFIX : string;
  PULLDOWN_BUTTON_POSTFIX : string;
  STACKTHREE_BUTTON_POSTFIX : string;
  STACKTWO_BUTTON_POSTFIX : string;
  SPLIT_BUTTON_POSTFIX : string;
  SPLITPUSH_BUTTON_POSTFIX : string;
  DEFAULT_ICON_FILE : string;
  DEFAULT_SCRIPT_FILE : string;
  DEFAULT_ON_ICON_FILE : string;
  DEFAULT_OFF_ICON_FILE : string;
  DEFAULT_LAYOUT_FILE_NAME : string;
  DOCSTRING_PARAM : string;
  AUTHOR_PARAM : string;
  COMPONENT_LIB_NAME : string;
  MIN_REVIT_VERSION_PARAM : string;
  MIN_PYREVIT_VERSION_PARAM : string;
  (* .utils *)
  cleanup_string : string → string;
  (* [ScriptFileContents(path)], the object built being its [extract_param] *)
  ScriptFileContents : string → option (string → option string);
  (* .usersettings: [user_settings.get_alias(original_name, type_id)] *)
  get_alias : string → string → string;
  (* file system: [op.exists(path)] and [open(path, 'r').readlines()] *)
  exists_path : string → bool;
  readlines : string → option (list string);
}.

(** ** Single commands *)

Module GenericCommand.

Inductive cls : Type := GenericCommand | LinkButton | PushButton | ToggleButton.

Record t : Type := {
  class : cls;
  directory : string;
  original_name : string;
  name : string;
  icon_file : option string;
  script_file : option string;
  min_pyrevit_ver : option string;
  min_revit_ver : option string;
  doc_string : option string;
  author : option string;
  unique_name : string;
  library_path : string;
  search_paths : list string;
  (* set by [ToggleButton.__init__] only *)
  icon_on_file : attribute (option string);
  icon_off_file : attribute (option string);
}.

Section Methods.
Context `{Host}.

Definition type_id (c : cls) : string :=
  match c with
  | GenericCommand => ""
  | LinkButton => LINK_BUTTON_POSTFIX
  | PushButton => PUSH_BUTTON_POSTFIX
  | ToggleButton => TOGGLE_BUTTON_POSTFIX
  end.

Definition is_group : bool := false.

Definition _is_valid_dir (c : cls) (directory : string) : bool :=
  endswith directory (type_id c).

Definition _get_full_file_address (directory file_name : string) : string :=
  join directory file_name.

Definition _get_name (directory : string) : string :=
  (splitext (basename directory)).1.

Definition _verify_file (directory file_name : string) : option string :=
  if exists_path (join directory file_name) then Some file_name else None.

Definition _get_library (directory : string) : string :=
  join directory COMPONENT_LIB_NAME.

Definition _check_dependencies : M Log unit := mret tt.

(** The loop of [_get_unique_name]: [uname] grows by the stem of every
    segment that has an extension. *)
Fixpoint _get_unique_name_loop (uname : string) (dnames : list string) : string :=
  match dnames with
  | [] => uname
  | dname :: rest =>
      let '(name, ext) := splitext dname in
      if negb (String.eqb ext "") then _get_unique_name_loop (uname +:+ name) rest
      else _get_unique_name_loop uname rest
  end.

Definition _get_unique_name (directory : string) : string :=
  let uname := "" in
  let dir_str := directory in
  cleanup_string (_get_unique_name_loop uname (split dir_str sep)).

Definition get_full_script_address (directory script_file : string) : string :=
  join directory script_file.

(** [GenericCommand.__init__], with the two attributes that
    [ToggleButton.__init__] sets afterwards; the other classes leave them
    unset. *)
Definition __init__ (c : cls) (cmd_dir : string) : M Log t :=
  let directory := cmd_dir in
  if negb (_is_valid_dir c directory) then raise PyRevitUnknownFormatError
  else
    let original_name := _get_name directory in
    let name := get_alias original_name (type_id c) in
    when (negb (String.eqb name original_name))
         (logger DEBUG "Alias name is: {}" [PStr name]);;
    let icon_file := _verify_file directory DEFAULT_ICON_FILE in
    logger DEBUG "Command {}: Icon file is: {}" [PStr original_name; pyopt icon_file];;
    let script_file := _verify_file directory DEFAULT_SCRIPT_FILE in
    match script_file with
    | None =>
        logger ERROR "Command {}: Does not have script file." [PStr original_name];;
        raise PyRevitNoScriptFileError
    | Some script =>
        match ScriptFileContents (get_full_script_address directory script) with
        | None => raise IOError
        | Some script_content =>
        let min_pyrevit_ver := script_content MIN_PYREVIT_VERSION_PARAM in
        let min_revit_ver := script_content MIN_REVIT_VERSION_PARAM in
        _check_dependencies;;
        let doc_string := script_content DOCSTRING_PARAM in
        let author := script_content AUTHOR_PARAM in
        let unique_name := _get_unique_name directory in
        let library_path := _get_library directory in
        let search_paths := [] ++ [library_path] in
        let toggle := match c with ToggleButton => true | _ => false end in
        mret {| class := c;
                directory := directory;
                original_name := original_name;
                name := name;
                icon_file := icon_file;
                script_file := script_file;
                min_pyrevit_ver := min_pyrevit_ver;
                min_revit_ver := min_revit_ver;
                doc_string := doc_string;
                author := author;
                unique_name := unique_name;
                library_path := library_path;
                search_paths := search_paths;
                icon_on_file :=
                  if toggle then Attr (_verify_file directory DEFAULT_ON_ICON_FILE)
                  else Unset;
                icon_off_file :=
                  if toggle then Attr (_verify_file directory DEFAULT_OFF_ICON_FILE)
                  else Unset |}
        end
    end.

Definition __repr__ (self : t) : string :=
  "Type Id: " +:+ type_id (class self) +:+ " Directory: " +:+ directory self
    +:+ " Name: " +:+ original_name self.

Definition get_search_paths (self : t) : list string := search_paths self.

Definition append_search_path (path : string) (self : t) : t :=
  {| class := class self; directory := directory self;
     original_name := original_name self; name := name self;
     icon_file := icon_file self; script_file := script_file self;
     min_pyrevit_ver := min_pyrevit_ver self; min_revit_ver := min_revit_ver self;
     doc_string := doc_string self; author := author self;
     unique_name := unique_name self; library_path := library_path self;
     search_paths := search_paths self ++ [path];
     icon_on_file := icon_on_file self; icon_off_file := icon_off_file self |}.

End Methods.
End GenericCommand.

(** ** Containers *)

(** [enumerate(xs, start)]. *)
Fixpoint enumerate {A} (start : nat) (xs : list A) : list (nat * A) :=
  match xs with
  | [] => []
  | x :: xs' => (start, x) :: enumerate (S start) xs'
  end.

(** [for x in xs: body x], over a list that the body does not change. *)
Fixpoint for_each {S B} (xs : list B) (body : B → M S unit) : M S unit :=
  match xs with
  | [] => mret tt
  | x :: xs' => body x;; for_each xs' body
  end.

(** Run a logger call in a state that also holds the list of a container. *)
Definition logging {S A} (m : M Log A) : M (S * Log) A := λ '(s, log),
  let '(r, log') := m log in (r, (s, log')).

(** Unfolds the operations of the monad. *)
Ltac msimpl :=
  cbv [mbind M_bind mret M_ret raise modify gets when logger logging].

(** The advisory [_process_components_per_layout] logs for a layout entry that
    matches no child. *)
Definition not_available (item : string) : LogRecord :=
  {| lvl := DEBUG; fmt := "Item listed in layout file is not available: {}";
     args := [PStr item] |}.

(** The two records it logs around the reordering. *)
Definition reordering : LogRecord :=
  {| lvl := DEBUG; fmt := "Reordering components per layout file..."; args := [] |}.

Definition reordered {A} (repr_of : A → string) (l : list A) : LogRecord :=
  {| lvl := DEBUG; fmt := "Reordered sub-component list is: {}";
     args := [PList (PStr ∘ repr_of <$> l)] |}.

(** The methods that read or reorder [self._sub_components] use two things of
    its elements only, [component.name] and [repr(component)].  They are
    written over the element type [A], so that [Tab.has_commands] below can
    run them on children paired with the outcome of their own
    [has_commands()].  The state is the live list with the log. *)
Section Layout.
Context {A : Type} (name_of repr_of : A → string).

(** The inner loop [for cmp_index, component in enumerate(self._sub_components)]
    of [_process_components_per_layout].  The list iterator reads the live
    list at each index; the swaps keep its length, so the indices visited
    are those below the length at the start, given as [cmp_indices]. *)
Fixpoint scan_components (i_index : nat) (item : string) (cmp_indices : list nat)
    (item_found : bool) : M (list A * Log) bool :=
  match cmp_indices with
  | [] => mret item_found
  | cmp_index :: rest =>
      comps ← gets fst;
      match comps !! cmp_index with
      | None => mret item_found
      | Some component =>
          if String.eqb (name_of component) item then
            (* a, b = self._sub_components[i_index], self._sub_components[cmp_index] *)
            match comps !! i_index, comps !! cmp_index with
            | Some a, Some b =>
                (* self._sub_components[i_index], self._sub_components[cmp_index] = b, a *)
                modify (λ s : list A * Log, (<[cmp_index := a]> (<[i_index := b]> s.1), s.2));;
                scan_components i_index item rest true
            | _, _ => raise IndexError
            end
          else scan_components i_index item rest item_found
      end
  end.

(** The body of the outer loop, for one [(i_index, item)]. *)
Definition place_item (entry : nat * string) : M (list A * Log) unit :=
  let '(i_index, item) := entry in
  n ← gets (λ s, length s.1);
  item_found ← scan_components i_index item (seq 0 n) false;
  when (negb item_found)
    (logging (logger DEBUG "Item listed in layout file is not available: {}" [PStr item])).

Definition _process_components_per_layout (layout_list : option (list string))
    : M (list A * Log) unit :=
  comps ← gets fst;
  match layout_list with
  | Some layout =>
      when (nonempty layout && nonempty comps)
        (logging (logger DEBUG "Reordering components per layout file..." []);;
         for_each (enumerate 0 layout) place_item;;
         comps' ← gets fst;
         logging (logger DEBUG "Reordered sub-component list is: {}"
                    [PList (PStr ∘ repr_of <$> comps')]))
  | None => mret tt
  end.

Definition __iter__ (layout_list : option (list string)) : M (list A * Log) (list A) :=
  _process_components_per_layout layout_list;;
  gets fst.

Definition add_component (comp : A) : M (list A * Log) unit :=
  modify (λ s, (s.1 ++ [comp], s.2)).


End Layout.

Module GenericContainer.

Inductive cls : Type :=
| GenericContainer | Package | Tab | Panel
| GenericStack | StackThreeButtonGroup | StackTwoButtonGroup
| GenericCommandGroup | PullDownButtonGroup | SplitPushButtonGroup | SplitButtonGroup.

(** The attributes set by [__init__]; [_sub_components] is kept apart, in
    [Component] below. *)
Record attrs : Type := {
  class : cls;
  directory : string;
  original_name : string;
  name : string;
  unique_name : string;
  library_path : string;
  layout_list : option (list string);
  icon_file : option string;
  (* set to [None] by [Package.__init__] *)
  author : option string;
  version : option string;
}.

Section Methods.
Context `{Host}.

Definition type_id (c : cls) : string :=
  match c with
  | Package => PACKAGE_POSTFIX
  | Tab => TAB_POSTFIX
  | Panel => PANEL_POSTFIX
  | StackThreeButtonGroup => STACKTHREE_BUTTON_POSTFIX
  | StackTwoButtonGroup => STACKTWO_BUTTON_POSTFIX
  | PullDownButtonGroup => PULLDOWN_BUTTON_POSTFIX
  | SplitPushButtonGroup => SPLITPUSH_BUTTON_POSTFIX
  | SplitButtonGroup => SPLIT_BUTTON_POSTFIX
  | GenericContainer | GenericStack | GenericCommandGroup => ""
  end.

Definition is_group : bool := true.

Definition _is_valid_dir (c : cls) (directory : string) : bool :=
  endswith directory (type_id c).

Definition _get_name (directory : string) : string :=
  (splitext (basename directory)).1.

Definition _get_library (directory : string) : string :=
  join directory COMPONENT_LIB_NAME.

Fixpoint _get_unique_name_loop (uname : string) (dnames : list string) : string :=
  match dnames with
  | [] => uname
  | dname :: rest =>
      let '(name, ext) := splitext dname in
      if negb (String.eqb ext "") then _get_unique_name_loop (uname +:+ name) rest
      else _get_unique_name_loop uname rest
  end.

Definition _get_unique_name (directory : string) : string :=
  let uname := "" in
  let dir_str := directory in
  cleanup_string (_get_unique_name_loop uname (split dir_str sep)).

Definition _verify_file (directory file_name : string) : option string :=
  if exists_path (join directory file_name) then Some file_name else None.

Definition __repr__ (original_name directory : string) : string :=
  "Name: " +:+ original_name +:+ " Directory: " +:+ directory.

Definition _read_layout_file (original_name directory : string)
    : M Log (option (list string)) :=
  if truthy (_verify_file directory DEFAULT_LAYOUT_FILE_NAME) then
    match readlines (join directory DEFAULT_LAYOUT_FILE_NAME) with
    | None => raise IOError
    | Some layout_file => mret (Some (remove_char "010"%char <$> layout_file))
    end
  else
    logger DEBUG "Container does not have layout file defined: {}"
      [PStr (__repr__ original_name directory)];;
    mret None.

(** [GenericContainer.__init__]; [self._sub_components = []] is the empty
    list the new container starts with. *)
Definition __init__ (c : cls) (branch_dir : string) : M Log attrs :=
  let directory := branch_dir in
  if negb (_is_valid_dir c directory) then raise PyRevitUnknownFormatError
  else
    let original_name := _get_name directory in
    let name := get_alias original_name (type_id c) in
    when (negb (String.eqb name original_name))
         (logger DEBUG "Alias name is: {}" [PStr name]);;
    let unique_name := _get_unique_name directory in
    let library_path := _get_library directory in
    layout_list ← _read_layout_file original_name directory;
    logger DEBUG "Layout is: {}"
      [match layout_list with Some l => PList (PStr <$> l) | None => PNone end];;
    let icon_file := _verify_file directory DEFAULT_ICON_FILE in
    when (truthy icon_file)
         (logger DEBUG "Icon file is: {}" [PStr original_name; pyopt icon_file]);;
    mret {| class := c;
            directory := directory;
            original_name := original_name;
            name := name;
            unique_name := unique_name;
            library_path := library_path;
            layout_list := layout_list;
            icon_file := icon_file;
            author := None;
            version := None |}.

(** [Package.get_all_commands]. *)
Definition get_all_commands : list GenericCommand.t := [].

End Methods.
End GenericContainer.

(** A component of the tree: a container with its children, or a command. *)
Inductive Component : Type :=
| ContainerObj (self : GenericContainer.attrs) (_sub_components : list Component)
| CommandObj (self : GenericCommand.t).

(** [component.name]. *)
Definition component_name (c : Component) : string :=
  match c with
  | ContainerObj a _ => GenericContainer.name a
  | CommandObj c => GenericCommand.name c
  end.

Section Tree.
Context `{Host}.

(** [repr(component)]. *)
Definition component_repr (c : Component) : string :=
  match c with
  | ContainerObj a _ =>
      GenericContainer.__repr__ (GenericContainer.original_name a) (GenericContainer.directory a)
  | CommandObj c => GenericCommand.__repr__ c
  end.

(** [Panel.has_commands]. *)
Definition Panel_has_commands (_sub_components : list Component) : bool :=
  if (0 <? Z.of_nat (length _sub_components)) then true else false.

(** The loop of [Tab.has_commands] over the children as iterated, each
    paired with the outcome of its [has_commands()]: the first [True]
    returns, a raised exception propagates. *)
Fixpoint first_has_commands (panels : list (Component * result bool)) : result bool :=
  match panels with
  | [] => Ok false
  | (_, Raise e) :: _ => Raise e
  | (_, Ok true) :: _ => Ok true
  | (_, Ok false) :: rest => first_has_commands rest
  end.

(** [component.has_commands()] for its outcome: [Tab] and [Panel] define the
    method, the other classes do not.  In [Tab.has_commands], [for panel in
    self] first reorders the children ([__iter__]); a child is paired with
    the outcome of its call before the reordering, which moves the pairs
    only. *)
Fixpoint has_commands (c : Component) : result bool :=
  match c with
  | ContainerObj a subs =>
      match GenericContainer.class a with
      | GenericContainer.Tab =>
          let paired := (λ panel, (panel, has_commands panel)) <$> subs in
          match __iter__ (component_name ∘ fst) (component_repr ∘ fst)
                  (GenericContainer.layout_list a) (paired, []) with
          | (Ok panels, _) => first_has_commands panels
          | (Raise e, _) => Raise e
          end
      | GenericContainer.Panel => Ok (Panel_has_commands subs)
      | _ => Raise AttributeError
      end
  | CommandObj _ => Raise AttributeError
  end.

Definition Tab_has_commands (self : GenericContainer.attrs)
    (_sub_components : list Component) : result bool :=
  has_commands (ContainerObj self _sub_components).

End Tree.

(** ** The statements of the specification, in its own words *)

(** [c in s]. *)
Fixpoint has_char (c : ascii) (s : string) : bool :=
  match s with
  | "" => false
  | String a r => Ascii.eqb a c || has_char c r
  end.

(** Every character of [s] is a dot (so is the empty string). *)
Fixpoint only_dots (s : string) : bool :=
  match s with
  | "" => true
  | String a r => Ascii.eqb a extsep && only_dots r
  end.

(** [s] ends with [suffix]: it is some prefix followed by [suffix]. *)
Definition ends_with (s suffix : string) : Prop := ∃ p, s = p +:+ suffix.

(** The final path segment of a directory. *)
Definition final_segment (directory : string) : string :=
  List.last (split directory sep) "".

(** A segment with the suffix removed once from its end. *)
Definition strip_suffix (segment suffix : string) : string :=
  if endswith segment suffix
  then slice_to segment (len segment - len suffix)
  else segment.

(** A component suffix as the file-system convention has them: a dot and an
    extension that holds neither a dot nor a separator ([.panel],
    [.pushbutton]). *)
Definition component_suffix (suffix : string) : Prop :=
  ∃ ext, suffix = String extsep ext ∧ has_char extsep ext = false ∧ has_char sep ext = false.

(** Concatenation of a list of strings. *)
Definition str_concat (l : list string) : string := foldr String.append "" l.

Section UniqueNameSpec.
Context `{Host}.

(** Unique-name generation as the specification words it: over the path
    segments in order, the stems of the segments that have a non-empty
    extension are concatenated, and the result is sanitized. *)
Definition unique_name_spec (directory : string) : string :=
  cleanup_string
    (str_concat
       ((λ segment, (splitext segment).1)
          <$> filter (λ segment, (splitext segment).2 ≠ "") (split directory sep))).
End UniqueNameSpec.

Section Readable.
Context `{Host}.

(** The layout file of a directory can be read, or the directory has none
    that [_read_layout_file] would open. *)
Definition layout_readable (directory : string) : bool :=
  if truthy (GenericContainer._verify_file directory DEFAULT_LAYOUT_FILE_NAME)
  then match readlines (join directory DEFAULT_LAYOUT_FILE_NAME) with
       | Some _ => true
       | None => false
       end
  else true.

(** The script file of a command directory can be read. *)
Definition script_readable (directory : string) : bool :=
  match ScriptFileContents (join directory DEFAULT_SCRIPT_FILE) with
  | Some _ => true
  | None => false
  end.
End Readable.

(** Exchange of the elements at [i] and [j], as the tuple assignment of
    [_process_components_per_layout] does it when both indices are in
    range. *)
Definition swap {A} (i j : nat) (l : list A) : list A :=
  match l !! i, l !! j with
  | Some a, Some b => <[j := a]> (<[i := b]> l)
  | _, _ => l
  end.

(** The children named by the entries of [placed] sit at the positions of
    those entries: a child whose name is the entry at [m] is at index [m]. *)
Definition in_place {A} (name_of : A → string) (placed : list string) (l : list A) : Prop :=
  ∀ m item j c, placed !! m = Some item → l !! j = Some c → name_of c = item → j = m.

(** A component that is a [Panel], and the children of a component. *)
Definition is_panel (c : Component) : Prop :=
  match c with
  | ContainerObj self _ => GenericContainer.class self = GenericContainer.Panel
  | CommandObj _ => False
  end.

Definition children_of (c : Component) : list Component :=
  match c with
  | ContainerObj _ _sub_components => _sub_components
  | CommandObj _ => []
  end.

(** ** A host and a few components to run the definitions on *)

(** A host for the examples.  [.config] is not among the sources: [.panel]
    and [.pushbutton] are the suffixes the specification names, [Lib] the
    library folder of the docstrings, and the other constants stand in for
    theirs.  The alias table is empty, [cleanup_string] removes spaces, and the
    file system holds one push button with its script. *)
Definition sample_host : Host := {|
  PACKAGE_POSTFIX := ".package";
  TAB_POSTFIX := ".tab";
  PANEL_POSTFIX := ".panel";
  LINK_BUTTON_POSTFIX := ".linkbutton";
  PUSH_BUTTON_POSTFIX := ".pushbutton";
  TOGGLE_BUTTON_POSTFIX := ".toggle";
  PULLDOWN_BUTTON_POSTFIX := ".pulldown";
  STACKTHREE_BUTTON_POSTFIX := ".stack3";
  STACKTWO_BUTTON_POSTFIX := ".stack2";
  SPLIT_BUTTON_POSTFIX := ".splitbutton";
  SPLITPUSH_BUTTON_POSTFIX := ".splitpushbutton";
  DEFAULT_ICON_FILE := "icon.png";
  DEFAULT_SCRIPT_FILE := "script.py";
  DEFAULT_ON_ICON_FILE := "on.png";
  DEFAULT_OFF_ICON_FILE := "off.png";
  DEFAULT_LAYOUT_FILE_NAME := "_layout";
  DOCSTRING_PARAM := "__doc__";
  AUTHOR_PARAM := "__author__";
  COMPONENT_LIB_NAME := "Lib";
  MIN_REVIT_VERSION_PARAM := "__min_req_revit_ver__";
  MIN_PYREVIT_VERSION_PARAM := "__min_req_pyrevit_ver__";
  cleanup_string := remove_char " "%char;
  ScriptFileContents := λ _, Some (λ _, None);
  get_alias := λ original_name _, original_name;
  exists_path := λ p,
    String.eqb p "/pyRevit.package/pyRevit.tab/Edit.panel/Flip doors.pushbutton/script.py";
  readlines := λ _, Some [];
|}.

(** A panel of the tab [/pyRevit.package/pyRevit.tab], from the name of its
    folder, its display name and its children. *)
Definition sample_panel (original_name name : string) (children : list Component)
  : Component :=
  let directory := "/pyRevit.package/pyRevit.tab/" +:+ original_name +:+ ".panel" in
  ContainerObj
    {| GenericContainer.class := GenericContainer.Panel;
       GenericContainer.directory := directory;
       GenericContainer.original_name := original_name;
       GenericContainer.name := name;
       GenericContainer.unique_name := "pyRevitpyRevit" +:+ original_name;
       GenericContainer.library_path := directory +:+ "/Lib";
       GenericContainer.layout_list := None;
       GenericContainer.icon_file := None;
       GenericContainer.author := None;
       GenericContainer.version := None |}
    children.

(** Three empty panels displayed under the names of their folders, and two
    that an alias displays under the same name [A]. *)
Definition panel_A : Component := sample_panel "A" "A" [].
Definition panel_B : Component := sample_panel "B" "B" [].
Definition panel_C : Component := sample_panel "C" "C" [].
Definition panel_A1 : Component := sample_panel "A1" "A" [].
Definition panel_A2 : Component := sample_panel "A2" "A" [].

(** The push button of the docstrings, and the panel that holds it. *)
Definition flip_doors : GenericCommand.t :=
  {| GenericCommand.class := GenericCommand.PushButton;
     GenericCommand.directory :=
       "/pyRevit.package/pyRevit.tab/Edit.panel/Flip doors.pushbutton";
     GenericCommand.original_name := "Flip doors";
     GenericCommand.name := "Flip doors";
     GenericCommand.icon_file := None;
     GenericCommand.script_file := Some "script.py";
     GenericCommand.min_pyrevit_ver := None;
     GenericCommand.min_revit_ver := None;
     GenericCommand.doc_string := None;
     GenericCommand.author := None;
     GenericCommand.unique_name := "pyRevitpyRevitEditFlipdoors";
     GenericCommand.library_path :=
       "/pyRevit.package/pyRevit.tab/Edit.panel/Flip doors.pushbutton/Lib";
     GenericCommand.search_paths :=
       ["/pyRevit.package/pyRevit.tab/Edit.panel/Flip doors.pushbutton/Lib"];
     GenericCommand.icon_on_file := Unset;
     GenericCommand.icon_off_file := Unset |}.

Definition panel_Edit : Component := sample_panel "Edit" "Edit" [CommandObj flip_doors].

(** A tab with a layout. *)
Definition sample_tab (layout : option (list string)) : GenericContainer.attrs :=
  {| GenericContainer.class := GenericContainer.Tab;
     GenericContainer.directory := "/pyRevit.package/pyRevit.tab";
     GenericContainer.original_name := "pyRevit";
     GenericContainer.name := "pyRevit";
     GenericContainer.unique_name := "pyRevitpyRevit";
     GenericContainer.library_path := "/pyRevit.package/pyRevit.tab/Lib";
     GenericContainer.layout_list := layout;
     GenericContainer.icon_file := None;
     GenericContainer.author := None;
     GenericContainer.version := None |}.

(** ** Further definitions for the properties of the second part *)

(** [sep.join(l)] for a one-character separator. *)
Fixpoint str_join (sep : ascii) (l : list string) : string :=
  match l with
  | [] => ""
  | s :: rest =>
      match rest with
      | [] => s
      | _ :: _ => s +:+ String sep (str_join sep rest)
      end
  end.

(** The line feed that [_read_layout_file] removes. *)
Definition LF : ascii := "010"%char.

(** The sample host over another file system: the files that exist, and what
    reading a file gives, its lines or no result for a file that cannot be
    read. *)
Definition sample_host_with (files : list string) (lines : option (list string))
  : Host := {|
  PACKAGE_POSTFIX := PACKAGE_POSTFIX (Host := sample_host);
  TAB_POSTFIX := TAB_POSTFIX (Host := sample_host);
  PANEL_POSTFIX := PANEL_POSTFIX (Host := sample_host);
  LINK_BUTTON_POSTFIX := LINK_BUTTON_POSTFIX (Host := sample_host);
  PUSH_BUTTON_POSTFIX := PUSH_BUTTON_POSTFIX (Host := sample_host);
  TOGGLE_BUTTON_POSTFIX := TOGGLE_BUTTON_POSTFIX (Host := sample_host);
  PULLDOWN_BUTTON_POSTFIX := PULLDOWN_BUTTON_POSTFIX (Host := sample_host);
  STACKTHREE_BUTTON_POSTFIX := STACKTHREE_BUTTON_POSTFIX (Host := sample_host);
  STACKTWO_BUTTON_POSTFIX := STACKTWO_BUTTON_POSTFIX (Host := sample_host);
  SPLIT_BUTTON_POSTFIX := SPLIT_BUTTON_POSTFIX (Host := sample_host);
  SPLITPUSH_BUTTON_POSTFIX := SPLITPUSH_BUTTON_POSTFIX (Host := sample_host);
  DEFAULT_ICON_FILE := DEFAULT_ICON_FILE (Host := sample_host);
  DEFAULT_SCRIPT_FILE := DEFAULT_SCRIPT_FILE (Host := sample_host);
  DEFAULT_ON_ICON_FILE := DEFAULT_ON_ICON_FILE (Host := sample_host);
  DEFAULT_OFF_ICON_FILE := DEFAULT_OFF_ICON_FILE (Host := sample_host);
  DEFAULT_LAYOUT_FILE_NAME := DEFAULT_LAYOUT_FILE_NAME (Host := sample_host);
  DOCSTRING_PARAM := DOCSTRING_PARAM (Host := sample_host);
  AUTHOR_PARAM := AUTHOR_PARAM (Host := sample_host);
  COMPONENT_LIB_NAME := COMPONENT_LIB_NAME (Host := sample_host);
  MIN_REVIT_VERSION_PARAM := MIN_REVIT_VERSION_PARAM (Host := sample_host);
  MIN_PYREVIT_VERSION_PARAM := MIN_PYREVIT_VERSION_PARAM (Host := sample_host);
  cleanup_string := cleanup_string (Host := sample_host);
  ScriptFileContents := λ _, (λ _ _, None) <$> lines;
  get_alias := get_alias (Host := sample_host);
  exists_path := λ p, bool_decide (p ∈ files);
  readlines := λ _, lines;
|}.

(** The sample push button after two more search paths were appended. *)
Definition flip_doors_more : GenericCommand.t :=
  foldl (λ s path, GenericCommand.append_search_path path s) flip_doors ["/extra"; "/more"].

(** * Properties *)

(** ** Strings and paths *)

Lemma append_cons (c : ascii) (a b : string) : String c a +:+ b = String c (a +:+ b).
Proof. reflexivity. Qed.

Lemma append_empty_l (b : string) : "" +:+ b = b.
Proof. reflexivity. Qed.

Lemma len_cons (c : ascii) (s : string) : len (String c s) = len s + 1.
Proof. unfold len. cbn [String.length]. lia. Qed.

Lemma len_nonneg (s : string) : 0 ≤ len s.
Proof. unfold len. lia. Qed.

Lemma len_append (a b : string) : len (a +:+ b) = len a + len b.
Proof.
  induction a as [|c a IH].
  - rewrite append_empty_l. change (len "") with 0. lia.
  - rewrite append_cons, !len_cons. lia.
Qed.

Lemma rfind_cons (a : ascii) (r : string) (c : ascii) :
  rfind (String a r) c =
    if 0 <=? rfind r c then rfind r c + 1 else if Ascii.eqb a c then 0 else -1.
Proof. reflexivity. Qed.

Lemma append_assoc (a b c : string) : (a +:+ b) +:+ c = a +:+ b +:+ c.
Proof. induction a as [|x a IH]; [done | by rewrite !append_cons, IH]. Qed.

Lemma append_empty_r (a : string) : a +:+ "" = a.
Proof. induction a as [|x a IH]; [done | by rewrite append_cons, IH]. Qed.

Lemma str_drop_app (a b : string) : str_drop (String.length a) (a +:+ b) = b.
Proof.
  induction a as [|x a IH]; [rewrite append_empty_l; by destruct b|].
  rewrite append_cons. exact IH.
Qed.

Lemma str_take_app (a b : string) : str_take (String.length a) (a +:+ b) = a.
Proof.
  induction a as [|x a IH]; [rewrite append_empty_l; by destruct b|].
  rewrite append_cons. simpl. by rewrite IH.
Qed.

Lemma str_take_drop (n : nat) (s : string) : str_take n s +:+ str_drop n s = s.
Proof.
  revert s. induction n as [|n IH]; intros [|c s]; try done.
  cbn [str_take str_drop]. by rewrite append_cons, IH.
Qed.

Lemma str_drop_app_le (n : nat) (a b : string) :
  (n ≤ String.length a)%nat → str_drop n (a +:+ b) = str_drop n a +:+ b.
Proof.
  revert a. induction n as [|n IH]; intros [|c a] Hn; simpl in Hn; try lia.
  - rewrite append_empty_l. by destruct b.
  - done.
  - rewrite append_cons. cbn [str_drop]. apply IH. lia.
Qed.

Lemma slice_from_app (a b : string) : slice_from (a +:+ b) (len a) = b.
Proof. unfold slice_from, len. rewrite Nat2Z.id. apply str_drop_app. Qed.

Lemma slice_to_app (a b : string) : slice_to (a +:+ b) (len a) = a.
Proof. unfold slice_to, len. rewrite Nat2Z.id. apply str_take_app. Qed.

Lemma slice_from_0 (s : string) : slice_from s 0 = s.
Proof. by destruct s. Qed.

Lemma slice_from_app_le (a b : string) (k : Z) :
  k ≤ len a → slice_from (a +:+ b) k = slice_from a k +:+ b.
Proof. unfold slice_from, len. intros Hk. apply str_drop_app_le. lia. Qed.

(** [endswith] decides [ends_with]. *)
Lemma endswith_spec (s suffix : string) : endswith s suffix = true ↔ ends_with s suffix.
Proof.
  unfold endswith, ends_with. rewrite andb_true_iff, Z.leb_le, String.eqb_eq. split.
  - intros [Hle Hdrop]. exists (slice_to s (len s - len suffix)).
    rewrite <- Hdrop at 2. unfold slice_to, slice_from. by rewrite str_take_drop.
  - intros [p ->]. rewrite len_append. split; [pose proof (len_nonneg p); lia|].
    replace (len p + len suffix - len suffix) with (len p) by lia.
    apply slice_from_app.
Qed.

Lemma endswith_false (s suffix : string) : endswith s suffix = false ↔ ¬ ends_with s suffix.
Proof.
  rewrite <- endswith_spec. destruct (endswith s suffix); naive_solver.
Qed.

Lemma has_char_app (c : ascii) (a b : string) :
  has_char c (a +:+ b) = has_char c a || has_char c b.
Proof.
  induction a as [|x a IH]; [done|].
  rewrite append_cons. simpl. by rewrite IH, orb_assoc.
Qed.

Lemma rfind_bounds (s : string) (c : ascii) : -1 ≤ rfind s c < len s.
Proof.
  induction s as [|a r IH]; [unfold len; simpl; lia|].
  rewrite len_cons, rfind_cons.
  destruct (0 <=? rfind r c) eqn:E; [apply Z.leb_le in E; lia|].
  destruct (Ascii.eqb a c); lia.
Qed.

Lemma rfind_absent (s : string) (c : ascii) : has_char c s = false → rfind s c = -1.
Proof.
  induction s as [|a r IH]; simpl; [done|].
  intros [Ha Hr]%orb_false_iff. rewrite (IH Hr), Ha. done.
Qed.

Lemma rfind_app_absent (p x : string) (c : ascii) :
  has_char c x = false → rfind (p +:+ x) c = rfind p c.
Proof.
  intros Hx. induction p as [|a p IH].
  - by apply rfind_absent.
  - by rewrite append_cons, !rfind_cons, IH.
Qed.

(** The last occurrence: [c] followed by a string that does not hold it. *)
Lemma rfind_last (a b : string) (c : ascii) :
  has_char c b = false → rfind (a +:+ String c b) c = len a.
Proof.
  intros Hb. induction a as [|x a IH].
  - rewrite append_empty_l, rfind_cons, (rfind_absent _ _ Hb). simpl.
    by rewrite Ascii.eqb_refl.
  - rewrite append_cons, rfind_cons, IH, len_cons. pose proof (len_nonneg a).
    destruct (0 <=? len a) eqn:E; [done|]. apply Z.leb_gt in E. lia.
Qed.

Lemma basename_no_sep (p : string) : has_char sep p = false → basename p = p.
Proof.
  intros Hp. unfold basename. rewrite (rfind_absent _ _ Hp). apply slice_from_0.
Qed.

(** [basename] only grows by what is appended after the last separator. *)
Lemma basename_app (p x : string) :
  has_char sep x = false → basename (p +:+ x) = basename p +:+ x.
Proof.
  intros Hx. unfold basename. rewrite (rfind_app_absent _ _ _ Hx).
  apply slice_from_app_le. pose proof (rfind_bounds p sep). lia.
Qed.

Lemma str_drop_no_char (c : ascii) (n : nat) (s : string) :
  has_char c s = false → has_char c (str_drop n s) = false.
Proof.
  revert s. induction n as [|n IH]; intros [|a s]; simpl; try done.
  intros [_ Hs]%orb_false_iff. by apply IH.
Qed.

Lemma rfind_present (s : string) (c : ascii) : has_char c s = true → 0 ≤ rfind s c.
Proof.
  induction s as [|a r IH]; [done|].
  rewrite rfind_cons. simpl. pose proof (rfind_bounds r c).
  destruct (0 <=? rfind r c) eqn:E; [apply Z.leb_le in E; lia|].
  apply Z.leb_gt in E. destruct (Ascii.eqb a c); simpl; [lia|].
  intros Hr. specialize (IH Hr). lia.
Qed.

Lemma split_no_sep (s : string) : has_char sep s = false → split s sep = [s].
Proof.
  induction s as [|a r IH]; [done|]. simpl.
  intros [-> Hr]%orb_false_iff. by rewrite (IH Hr).
Qed.

Lemma split_with_sep (s : string) :
  has_char sep s = true → ∃ h h' t, split s sep = h :: h' :: t.
Proof.
  induction s as [|a r IH]; [done|]. simpl.
  destruct (Ascii.eqb a sep) eqn:Ea; simpl.
  - intros _. destruct (has_char sep r) eqn:Hr.
    + destruct (IH eq_refl) as (h & h' & t & ->). eauto.
    + rewrite (split_no_sep _ Hr). eauto.
  - intros Hr. destruct (IH Hr) as (h & h' & t & ->). eauto.
Qed.

Lemma basename_cons (a : ascii) (r : string) :
  basename (String a r) =
    if has_char sep r then basename r
    else if Ascii.eqb a sep then r else String a r.
Proof.
  unfold basename. rewrite rfind_cons. pose proof (rfind_bounds r sep).
  destruct (has_char sep r) eqn:Hr.
  - apply rfind_present in Hr.
    destruct (0 <=? rfind r sep) eqn:E; [|apply Z.leb_gt in E; lia].
    unfold slice_from.
    by replace (Z.to_nat (rfind r sep + 1 + 1)) with (S (Z.to_nat (rfind r sep + 1))) by lia.
  - rewrite (rfind_absent _ _ Hr). simpl. by destruct (Ascii.eqb a sep).
Qed.

(** The final segment of the specification is what [basename] returns. *)
Lemma final_segment_basename (p : string) : final_segment p = basename p.
Proof.
  unfold final_segment. induction p as [|a p IH]; [done|].
  rewrite basename_cons. cbn [split].
  destruct (has_char sep p) eqn:Hp.
  - destruct (split_with_sep _ Hp) as (h & h' & t & Hs). rewrite Hs in *.
    rewrite <- IH. by destruct (Ascii.eqb a sep).
  - rewrite (split_no_sep _ Hp). by destruct (Ascii.eqb a sep).
Qed.

Lemma basename_has_no_sep (p : string) : has_char sep (basename p) = false.
Proof.
  induction p as [|a p IH]; [done|].
  rewrite basename_cons. destruct (has_char sep p) eqn:Hp; [done|].
  destruct (Ascii.eqb a sep) eqn:Ea; [done|]. simpl. by rewrite Ea, Hp.
Qed.

Lemma append_dot_no_sep (ext : string) :
  has_char sep ext = false → has_char sep (String extsep ext) = false.
Proof. intros Hx. simpl. by rewrite Hx. Qed.

Lemma skip_leading_dots_spec (pre stem rest : string) (dotIndex : Z) :
  skip_leading_dots (pre +:+ stem +:+ rest) (len pre) (String.length stem) dotIndex =
    if only_dots stem then (pre +:+ stem +:+ rest, "")
    else (slice_to (pre +:+ stem +:+ rest) dotIndex,
          slice_from (pre +:+ stem +:+ rest) dotIndex).
Proof.
  revert pre. induction stem as [|c stem IH]; intros pre; [done|].
  cbn [String.length skip_leading_dots only_dots].
  rewrite slice_from_app, append_cons. cbn [str_take String.eqb].
  destruct (Ascii.eqb c extsep) eqn:Ec; simpl; [|done].
  replace (pre +:+ String c (stem +:+ rest))
    with ((pre +:+ String c "") +:+ stem +:+ rest)
    by (by rewrite append_assoc).
  replace (len pre + 1) with (len (pre +:+ String c ""))
    by (rewrite len_append; done).
  apply IH.
Qed.

(** [splitext] on a segment made of a stem, a dot and an extension. *)
Lemma splitext_segment (stem ext : string) :
  has_char sep stem = false → has_char sep ext = false → has_char extsep ext = false →
  splitext (stem +:+ String extsep ext) =
    if only_dots stem then (stem +:+ String extsep ext, "")
    else (stem, String extsep ext).
Proof.
  intros Hs Hx Hd. unfold splitext.
  rewrite (rfind_absent (stem +:+ String extsep ext) sep)
    by (by rewrite has_char_app, Hs, append_dot_no_sep).
  rewrite (rfind_last _ _ _ Hd).
  pose proof (len_nonneg stem) as Hn.
  destruct (-1 <? len stem) eqn:E; [|apply Z.ltb_ge in E; lia].
  replace (Z.to_nat (len stem - (-1 + 1))) with (String.length stem)
    by (unfold len; lia).
  change (-1 + 1) with (len "").
  pose proof (skip_leading_dots_spec "" stem (String extsep ext) (len stem)) as Hl.
  rewrite !append_empty_l in Hl. rewrite Hl.
  by rewrite slice_to_app, slice_from_app.
Qed.

Lemma strip_suffix_app (stem suffix : string) : strip_suffix (stem +:+ suffix) suffix = stem.
Proof.
  unfold strip_suffix.
  rewrite (proj2 (endswith_spec _ _)) by (by exists stem).
  rewrite len_append. replace (len stem + len suffix - len suffix) with (len stem) by lia.
  apply slice_to_app.
Qed.

Section Construction.
Context `{Host}.

(** The name both constructors derive from a directory that ends with a
    component suffix. *)
Lemma get_name_strips (d suffix : string) :
  component_suffix suffix → ends_with d suffix →
  only_dots (strip_suffix (final_segment d) suffix) = false →
  (splitext (basename d)).1 = strip_suffix (final_segment d) suffix.
Proof.
  intros (ext & -> & Hdot & Hsep) [p ->]. rewrite final_segment_basename.
  rewrite basename_app by (by apply append_dot_no_sep).
  rewrite strip_suffix_app. intros Hnd.
  rewrite splitext_segment; auto using basename_has_no_sep.
  by rewrite Hnd.
Qed.

(** With a valid directory, the outcome of the container constructor is
    decided by the reading of the layout file. *)
Lemma container_init_valid (c : GenericContainer.cls) (d : string) (log : Log) :
  GenericContainer._is_valid_dir c d = true →
  if layout_readable d
  then ∃ a log', GenericContainer.__init__ c d log = (Ok a, log')
                 ∧ GenericContainer.original_name a = GenericContainer._get_name d
                 ∧ GenericContainer.directory a = d
  else ∃ log', GenericContainer.__init__ c d log = (Raise IOError, log').
Proof.
  intros Hv. unfold GenericContainer.__init__, GenericContainer._read_layout_file,
    layout_readable.
  rewrite Hv. cbn [negb].
  destruct (truthy (GenericContainer._verify_file d DEFAULT_LAYOUT_FILE_NAME));
    [destruct (readlines (join d DEFAULT_LAYOUT_FILE_NAME))|]; msimpl;
    repeat match goal with
           | |- context [if ?b then _ else _] => destruct b
           end; cbn; eauto.
Qed.

Lemma command_init_invalid (c : GenericCommand.cls) (d : string) (log : Log) :
  GenericCommand._is_valid_dir c d = false →
  GenericCommand.__init__ c d log = (Raise PyRevitUnknownFormatError, log).
Proof. intros Hv. unfold GenericCommand.__init__. by rewrite Hv. Qed.

Lemma container_init_invalid (c : GenericContainer.cls) (d : string) (log : Log) :
  GenericContainer._is_valid_dir c d = false →
  GenericContainer.__init__ c d log = (Raise PyRevitUnknownFormatError, log).
Proof. intros Hv. unfold GenericContainer.__init__. by rewrite Hv. Qed.

(** With a valid directory, the outcome of the command constructor is
    decided by the script file: whether it exists, and whether it can be
    read. *)
Lemma command_init_valid (c : GenericCommand.cls) (d : string) (log : Log) :
  GenericCommand._is_valid_dir c d = true →
  if exists_path (join d DEFAULT_SCRIPT_FILE)
  then if script_readable d
       then ∃ a log', GenericCommand.__init__ c d log = (Ok a, log')
                      ∧ GenericCommand.original_name a = GenericCommand._get_name d
                      ∧ GenericCommand.script_file a = Some DEFAULT_SCRIPT_FILE
       else ∃ log', GenericCommand.__init__ c d log = (Raise IOError, log')
  else ∃ log', GenericCommand.__init__ c d log = (Raise PyRevitNoScriptFileError, log').
Proof.
  intros Hv. unfold GenericCommand.__init__, GenericCommand._check_dependencies,
    script_readable, GenericCommand.get_full_script_address.
  rewrite Hv. unfold GenericCommand._verify_file.
  destruct (exists_path (join d DEFAULT_SCRIPT_FILE));
    [destruct (ScriptFileContents (join d DEFAULT_SCRIPT_FILE))|]; msimpl; cbn [negb];
    repeat match goal with
           | |- context [if ?b then _ else _] => destruct b
           end; cbn; eauto.
Qed.
End Construction.

(** ** Construction: validation, names and the script file *)

Section ConstructionClaims.
Context `{Host}.

Lemma container_unique_name_loop (uname : string) (dnames : list string) :
  GenericContainer._get_unique_name_loop uname dnames =
    uname +:+ str_concat ((λ segment, (splitext segment).1)
                            <$> filter (λ segment, (splitext segment).2 ≠ "") dnames).
Proof.
  revert uname. induction dnames as [|dname rest IH]; intros uname.
  - simpl. by rewrite append_empty_r.
  - cbn [GenericContainer._get_unique_name_loop]. rewrite filter_cons.
    destruct (splitext dname) as [name ext] eqn:Es. cbn [snd].
    destruct (String.eqb_spec ext "") as [->|Hne]; cbn [negb].
    + rewrite decide_False by (intros Hn; by apply Hn). apply IH.
    + rewrite decide_True by done. rewrite IH, fmap_cons, Es. cbn [fst str_concat foldr].
      by rewrite append_assoc.
Qed.

Lemma command_unique_name_loop (uname : string) (dnames : list string) :
  GenericCommand._get_unique_name_loop uname dnames =
    GenericContainer._get_unique_name_loop uname dnames.
Proof.
  revert uname. induction dnames as [|dname rest IH]; intros uname; [done|].
  cbn [GenericCommand._get_unique_name_loop GenericContainer._get_unique_name_loop].
  destruct (splitext dname) as [name ext]. by rewrite !IH.
Qed.

(** C8. [uniqueName] is a function of the directory string alone: for a
    container and for a command it is the sanitization of the
    concatenation, over the path segments in order, of the stem of every
    segment with a non-empty extension, the other segments being skipped. *)
Theorem unique_name_is_sanitized_stems (directory : string) :
  GenericContainer._get_unique_name directory = unique_name_spec directory
  ∧ GenericCommand._get_unique_name directory = unique_name_spec directory.
Proof.
  assert (GenericContainer._get_unique_name directory = unique_name_spec directory) as Hc.
  { unfold GenericContainer._get_unique_name, unique_name_spec. cbv zeta.
    by rewrite container_unique_name_loop, append_empty_l. }
  split; [exact Hc|]. rewrite <- Hc.
  unfold GenericContainer._get_unique_name, GenericCommand._get_unique_name. cbv zeta.
  f_equal; apply command_unique_name_loop.
Qed.

(** C6. A directory that does not end with the suffix of the class being
    constructed makes the constructor, of a container and of a command
    alike, raise [PyRevitUnknownFormatError] with no component built (and
    nothing logged); a directory that ends with it passes the validation, so
    that this error is not raised. *)
Theorem invalid_suffix_raises_unknown_format (directory : string) (log : Log) :
  (∀ c, ¬ ends_with directory (GenericContainer.type_id c) →
        GenericContainer.__init__ c directory log = (Raise PyRevitUnknownFormatError, log))
  ∧ (∀ c, ¬ ends_with directory (GenericCommand.type_id c) →
          GenericCommand.__init__ c directory log = (Raise PyRevitUnknownFormatError, log))
  ∧ (∀ c, ends_with directory (GenericContainer.type_id c) →
          GenericContainer._is_valid_dir c directory = true
          ∧ (GenericContainer.__init__ c directory log).1 ≠ Raise PyRevitUnknownFormatError)
  ∧ (∀ c, ends_with directory (GenericCommand.type_id c) →
          GenericCommand._is_valid_dir c directory = true
          ∧ (GenericCommand.__init__ c directory log).1 ≠ Raise PyRevitUnknownFormatError).
Proof.
  repeat split.
  - intros c Hn. apply container_init_invalid. by apply endswith_false.
  - intros c Hn. apply command_init_invalid. by apply endswith_false.
  - by apply endswith_spec.
  - apply endswith_spec in H0.
    pose proof (container_init_valid c directory log H0) as Hc.
    destruct (layout_readable directory).
    + destruct Hc as (a & log' & -> & _). done.
    + destruct Hc as (log' & ->). done.
  - by apply endswith_spec.
  - apply endswith_spec in H0.
    pose proof (command_init_valid c directory log H0) as Hc.
    destruct (exists_path (join directory DEFAULT_SCRIPT_FILE));
      [destruct (script_readable directory)|].
    + destruct Hc as (a & log' & -> & _). done.
    + destruct Hc as (log' & ->). done.
    + destruct Hc as (log' & ->). done.
Qed.

(** C7. A command directory with a valid suffix and no script file makes
    the constructor raise [PyRevitNoScriptFileError], and a command is only
    ever constructed when its script file exists. *)
Theorem missing_script_raises (c : GenericCommand.cls) (directory : string) (log : Log) :
  (ends_with directory (GenericCommand.type_id c) →
   exists_path (join directory DEFAULT_SCRIPT_FILE) = false →
   ∃ log', GenericCommand.__init__ c directory log = (Raise PyRevitNoScriptFileError, log'))
  ∧ (∀ self log', GenericCommand.__init__ c directory log = (Ok self, log') →
       exists_path (join directory DEFAULT_SCRIPT_FILE) = true
       ∧ GenericCommand.script_file self = Some DEFAULT_SCRIPT_FILE).
Proof.
  split.
  - intros Hv%endswith_spec Hs.
    pose proof (command_init_valid c directory log Hv) as Hc. by rewrite Hs in Hc.
  - intros self log' Hi.
    destruct (GenericCommand._is_valid_dir c directory) eqn:Hv.
    + pose proof (command_init_valid c directory log Hv) as Hc.
      destruct (exists_path (join directory DEFAULT_SCRIPT_FILE));
        [destruct (script_readable directory)|].
      * destruct Hc as (a & l & Ha & _ & Hs). rewrite Hi in Ha.
        injection Ha as -> ->. done.
      * destruct Hc as (l & Hc). congruence.
      * destruct Hc as (l & Hc). congruence.
    + rewrite (command_init_invalid c directory log Hv) in Hi. done.
Qed.

(** C9, amended. For a directory that ends with a component suffix (a dot
    and an extension free of dots and separators) and whose final segment
    has, before that suffix, a character other than a dot: the construction
    of a container succeeds when the layout file is absent or can be read,
    that of a command whose script file exists succeeds when the script file
    can be read, and [original_name] is then the final segment with the
    suffix stripped once.  A layout file or a script file that exists and
    cannot be read makes the construction raise the error of the read. *)
Theorem original_name_is_stripped_segment (directory : string) (log : Log) :
  (∀ c, component_suffix (GenericContainer.type_id c) →
        ends_with directory (GenericContainer.type_id c) →
        only_dots (strip_suffix (final_segment directory) (GenericContainer.type_id c)) = false →
        (layout_readable directory = true →
         ∃ self log', GenericContainer.__init__ c directory log = (Ok self, log')
           ∧ GenericContainer.original_name self =
               strip_suffix (final_segment directory) (GenericContainer.type_id c))
        ∧ (layout_readable directory = false →
           ∃ log', GenericContainer.__init__ c directory log = (Raise IOError, log')))
  ∧ (∀ c, component_suffix (GenericCommand.type_id c) →
          ends_with directory (GenericCommand.type_id c) →
          only_dots (strip_suffix (final_segment directory) (GenericCommand.type_id c)) = false →
          exists_path (join directory DEFAULT_SCRIPT_FILE) = true →
          (script_readable directory = true →
           ∃ self log', GenericCommand.__init__ c directory log = (Ok self, log')
             ∧ GenericCommand.original_name self =
                 strip_suffix (final_segment directory) (GenericCommand.type_id c))
          ∧ (script_readable directory = false →
             ∃ log', GenericCommand.__init__ c directory log = (Raise IOError, log'))).
Proof.
  split.
  - intros c Hsuf Hend Hnd.
    pose proof (container_init_valid c directory log (proj2 (endswith_spec _ _) Hend)) as Hc.
    split; intros Hr; rewrite Hr in Hc; [|done].
    destruct Hc as (a & log' & Hi & Hn & _).
    exists a, log'. split; [done|]. rewrite Hn. by apply get_name_strips.
  - intros c Hsuf Hend Hnd Hs.
    pose proof (command_init_valid c directory log (proj2 (endswith_spec _ _) Hend)) as Hc.
    rewrite Hs in Hc. split; intros Hr; rewrite Hr in Hc; [|done].
    destruct Hc as (a & log' & Hi & Hn & _).
    exists a, log'. split; [done|]. rewrite Hn. by apply get_name_strips.
Qed.
End ConstructionClaims.

Lemma invalid_suffix_raises_unknown_format_witness :
  GenericContainer.__init__ (H := sample_host) GenericContainer.Panel "/pyRevit.package/pyRevit.tab" []
    = (Raise PyRevitUnknownFormatError, [])
  ∧ GenericCommand.__init__ (H := sample_host) GenericCommand.PushButton "/pyRevit.package/pyRevit.tab" []
    = (Raise PyRevitUnknownFormatError, [])
  ∧ GenericContainer._is_valid_dir (H := sample_host) GenericContainer.Tab "/pyRevit.package/pyRevit.tab" = true
  ∧ GenericCommand._is_valid_dir (H := sample_host) GenericCommand.PushButton "/a.tab/Flip doors.pushbutton" = true.
Proof.
  pose proof (invalid_suffix_raises_unknown_format (H := sample_host)
                "/pyRevit.package/pyRevit.tab" []) as (H1 & H2 & H3 & _).
  pose proof (invalid_suffix_raises_unknown_format (H := sample_host)
                "/a.tab/Flip doors.pushbutton" []) as (_ & _ & _ & H4).
  split; [|split; [|split]].
  - apply (H1 GenericContainer.Panel). apply endswith_false. vm_compute; reflexivity.
  - apply (H2 GenericCommand.PushButton). apply endswith_false. vm_compute; reflexivity.
  - apply (H3 GenericContainer.Tab). apply endswith_spec. vm_compute; reflexivity.
  - apply (H4 GenericCommand.PushButton). apply endswith_spec. vm_compute; reflexivity.
Defined.

Lemma missing_script_raises_witness :
  (∃ log', GenericCommand.__init__ (H := sample_host) GenericCommand.PushButton
             "/pyRevit.package/pyRevit.tab/Edit.panel/Empty.pushbutton" []
           = (Raise PyRevitNoScriptFileError, log'))
  ∧ exists_path (Host := sample_host)
      (join "/pyRevit.package/pyRevit.tab/Edit.panel/Flip doors.pushbutton"
            (DEFAULT_SCRIPT_FILE (Host := sample_host))) = true.
Proof.
  split.
  - apply (missing_script_raises (H := sample_host)).
    + apply endswith_spec. vm_compute; reflexivity.
    + vm_compute; reflexivity.
  - eapply (proj2 (missing_script_raises (H := sample_host) GenericCommand.PushButton
                     "/pyRevit.package/pyRevit.tab/Edit.panel/Flip doors.pushbutton" [])).
    vm_compute; reflexivity.
Defined.

Lemma original_name_is_stripped_segment_witness :
  (∃ self log', GenericContainer.__init__ (H := sample_host) GenericContainer.Panel
                  "/pyRevit.package/pyRevit.tab/Edit.panel" [] = (Ok self, log')
                ∧ GenericContainer.original_name self = "Edit")
  ∧ (∃ self log', GenericCommand.__init__ (H := sample_host) GenericCommand.PushButton
                    "/pyRevit.package/pyRevit.tab/Edit.panel/Flip doors.pushbutton" []
                  = (Ok self, log')
                  ∧ GenericCommand.original_name self = "Flip doors")
  ∧ (∃ log', GenericContainer.__init__
               (H := sample_host_with ["/pyRevit.package/pyRevit.tab/Edit.panel/_layout"] None)
               GenericContainer.Panel "/pyRevit.package/pyRevit.tab/Edit.panel" []
             = (Raise IOError, log')).
Proof.
  split; [|split].
  - apply (proj1 (original_name_is_stripped_segment (H := sample_host)
                    "/pyRevit.package/pyRevit.tab/Edit.panel" []) GenericContainer.Panel).
    + exists "panel". repeat split; vm_compute; reflexivity.
    + apply endswith_spec. vm_compute; reflexivity.
    + vm_compute; reflexivity.
    + vm_compute; reflexivity.
  - apply (proj2 (original_name_is_stripped_segment (H := sample_host)
                    "/pyRevit.package/pyRevit.tab/Edit.panel/Flip doors.pushbutton" [])
             GenericCommand.PushButton).
    + exists "pushbutton". repeat split; vm_compute; reflexivity.
    + apply endswith_spec. vm_compute; reflexivity.
    + vm_compute; reflexivity.
    + vm_compute; reflexivity.
    + vm_compute; reflexivity.
  - apply (proj1 (original_name_is_stripped_segment
                    (H := sample_host_with
                            ["/pyRevit.package/pyRevit.tab/Edit.panel/_layout"] None)
                    "/pyRevit.package/pyRevit.tab/Edit.panel" []) GenericContainer.Panel).
    + exists "panel". repeat split; vm_compute; reflexivity.
    + apply endswith_spec. vm_compute; reflexivity.
    + vm_compute; reflexivity.
    + vm_compute; reflexivity.
Defined.

(** The sample push button is what the constructor builds on the sample
    host, the unique name being the one of the docstring. *)
Example flip_doors_constructed :
  (GenericCommand.__init__ (H := sample_host) GenericCommand.PushButton
     "/pyRevit.package/pyRevit.tab/Edit.panel/Flip doors.pushbutton" []).1
  = Ok flip_doors.
Proof. vm_compute. reflexivity. Qed.

(** C9 as the specification states it fails on a final segment that is the
    suffix itself: [splitext] keeps a leading dot in the name, so the
    directory [/x/.panel] is valid for a panel and gets the original name
    [.panel], where stripping the suffix leaves the empty string. *)
Lemma original_name_dot_segment_counterexample :
  ∃ self log',
    component_suffix (GenericContainer.type_id (H := sample_host) GenericContainer.Panel)
    ∧ endswith "/x/.panel" (GenericContainer.type_id (H := sample_host) GenericContainer.Panel) = true
    ∧ GenericContainer.__init__ (H := sample_host) GenericContainer.Panel "/x/.panel" []
      = (Ok self, log')
    ∧ GenericContainer.original_name self = ".panel"
    ∧ strip_suffix (final_segment "/x/.panel")
        (GenericContainer.type_id (H := sample_host) GenericContainer.Panel) = "".
Proof.
  eexists _, _. split; [exists "panel"; repeat split; vm_compute; reflexivity|].
  split; [vm_compute; reflexivity|]. split; [vm_compute; reflexivity|].
  split; vm_compute; reflexivity.
Qed.

(** Nor does construction succeed on every valid directory: a layout file
    that exists and cannot be read makes the constructor of the panel
    [/pyRevit.package/pyRevit.tab/Edit.panel] raise [IOError], after the
    validation has passed. *)
Lemma unreadable_layout_counterexample :
  endswith "/pyRevit.package/pyRevit.tab/Edit.panel"
    (GenericContainer.type_id (H := sample_host) GenericContainer.Panel) = true
  ∧ GenericContainer.__init__
      (H := sample_host_with ["/pyRevit.package/pyRevit.tab/Edit.panel/_layout"] None)
      GenericContainer.Panel "/pyRevit.package/pyRevit.tab/Edit.panel" []
    = (Raise IOError, []).
Proof. split; vm_compute; reflexivity. Qed.

(** ** Layout reconciliation *)

Local Close Scope Z_scope.

Section LayoutFacts.
Context {A : Type} (name_of repr_of : A → string).

Local Abbreviation scan := (scan_components name_of).
Local Abbreviation place := (place_item name_of).

(** *** The inner loop *)

Lemma scan_nil i item found (st : list A * Log) :
  scan i item [] found st = (Ok found, st).
Proof. done. Qed.

Lemma scan_cons i item k rest found (l : list A) (log : Log) :
  scan i item (k :: rest) found (l, log) =
    match l !! k with
    | None => (Ok found, (l, log))
    | Some c =>
        if String.eqb (name_of c) item then
          match l !! i with
          | Some a => scan i item rest true (<[k := a]> (<[i := c]> l), log)
          | None => (Raise IndexError, (l, log))
          end
        else scan i item rest found (l, log)
    end.
Proof.
  cbn [scan_components]. msimpl. cbn [fst].
  destruct (l !! k) as [c|]; [|done].
  destruct (String.eqb (name_of c) item); [|done].
  by destruct (l !! i).
Qed.

(** Indices that hold no match leave the list and the flag as they are. *)
Lemma scan_no_match i item idxs found (l : list A) (log : Log) :
  (∀ k c, k ∈ idxs → l !! k = Some c → name_of c ≠ item) →
  scan i item idxs found (l, log) = (Ok found, (l, log)).
Proof.
  induction idxs as [|k rest IH]; intros Hno; [done|].
  rewrite scan_cons. destruct (l !! k) as [c|] eqn:Hk; [|done].
  destruct (String.eqb_spec (name_of c) item) as [He|_].
  - exfalso. eapply (Hno k c); [left | done | done].
  - apply IH. intros k' c' Hin. apply Hno. by right.
Qed.

(** Neither do indices whose only match sits at the layout position: the
    element is exchanged with itself. *)
Lemma scan_match_in_place i item idxs found (l : list A) (log : Log) :
  (∀ k c, k ∈ idxs → l !! k = Some c → name_of c = item → k = i) →
  ∃ found', scan i item idxs found (l, log) = (Ok found', (l, log))
            ∧ (found = true → found' = true).
Proof.
  revert found. induction idxs as [|k rest IH]; intros found Hin; [by exists found|].
  rewrite scan_cons. destruct (l !! k) as [c|] eqn:Hk; [|by exists found].
  assert (∀ k' c', k' ∈ rest → l !! k' = Some c' → name_of c' = item → k' = i) as Hrest.
  { intros k' c' Hk'. apply Hin. by right. }
  destruct (String.eqb_spec (name_of c) item) as [He|_]; [|by apply IH].
  assert (k = i) as -> by (eapply Hin; [left | done | done]).
  rewrite Hk, list_insert_insert_eq, list_insert_id by done.
  destruct (IH true Hrest) as (f & -> & Hf). exists f. auto.
Qed.

(** A match at an index, with the layout position in range, exchanges the
    two elements. *)
Lemma scan_one_match i item k found (l : list A) (log : Log) a c :
  l !! k = Some c → name_of c = item → l !! i = Some a →
  scan i item [k] found (l, log) = (Ok true, (<[k := a]> (<[i := c]> l), log)).
Proof.
  intros Hk Hc Hi. rewrite scan_cons, Hk, Hi.
  by rewrite (proj2 (String.eqb_eq _ _) Hc).
Qed.

(** With the layout position in range the loop ends normally, on a
    permutation of the list. *)
Lemma scan_in_range i item idxs found (l : list A) (log : Log) :
  i < length l →
  ∃ found' l', scan i item idxs found (l, log) = (Ok found', (l', log))
               ∧ l' ≡ₚ l ∧ (found = true → found' = true).
Proof.
  revert found l. induction idxs as [|k rest IH]; intros found l Hi.
  { by exists found, l. }
  rewrite scan_cons. destruct (l !! k) as [c|] eqn:Hk; [|by exists found, l].
  destruct (String.eqb (name_of c) item); [|by apply IH].
  destruct (lookup_lt_is_Some_2 l i Hi) as [a Ha]. rewrite Ha.
  destruct (IH true (<[k := a]> (<[i := c]> l))) as (f & l' & -> & Hp & Hf).
  { by rewrite !length_insert. }
  exists f, l'. split; [done|]. split; [|auto].
  rewrite Hp. by apply Permutation_insert_swap.
Qed.

(** The loop over a concatenation of in-range indices. *)
Lemma scan_app i item xs ys found (l : list A) (log : Log) :
  (∀ k, k ∈ xs → k < length l) →
  scan i item (xs ++ ys) found (l, log) =
    match scan i item xs found (l, log) with
    | (Ok found', st) => scan i item ys found' st
    | (Raise e, st) => (Raise e, st)
    end.
Proof.
  revert found l. induction xs as [|k rest IH]; intros found l Hr; [done|].
  rewrite <- app_comm_cons, !scan_cons.
  destruct (lookup_lt_is_Some_2 l k (Hr k ltac:(left))) as [c ->].
  assert (∀ k', k' ∈ rest → k' < length l) as Hrest by (intros k' ?; apply Hr; by right).
  destruct (String.eqb (name_of c) item); [|by apply IH].
  destruct (l !! i) as [a|]; [|done].
  apply IH. intros k' Hk'. rewrite !length_insert. by apply Hrest.
Qed.

(** With the layout position out of range, the first match raises
    [IndexError], the list being as it was. *)
Lemma scan_out_of_range i item idxs found (l : list A) (log : Log) :
  length l ≤ i →
  (∀ k, k ∈ idxs → k < length l) →
  (∃ k c, k ∈ idxs ∧ l !! k = Some c ∧ name_of c = item) →
  scan i item idxs found (l, log) = (Raise IndexError, (l, log)).
Proof.
  intros Hi. revert found. induction idxs as [|k rest IH]; intros found Hr Hm.
  { destruct Hm as (k & c & Hk & _). by apply elem_of_nil in Hk. }
  rewrite scan_cons.
  destruct (lookup_lt_is_Some_2 l k (Hr k ltac:(left))) as [c Hc]. rewrite Hc.
  destruct (String.eqb_spec (name_of c) item) as [He|Hne].
  - by rewrite (lookup_ge_None_2 l i Hi).
  - apply IH; [intros k' ?; apply Hr; by right|].
    destruct Hm as (k' & c' & Hk' & Hl & Hn).
    apply elem_of_cons in Hk' as [->|Hk']; [congruence|]. eauto.
Qed.

(** *** The body of the outer loop *)

Lemma place_unfold i item (l : list A) (log : Log) :
  place (i, item) (l, log) =
    match scan i item (seq 0 (length l)) false (l, log) with
    | (Ok found, (l', log')) =>
        (Ok tt, (l', if found then log' else log' ++ [not_available item]))
    | (Raise e, st) => (Raise e, st)
    end.
Proof.
  unfold place_item. msimpl. cbn [fst].
  destruct (scan i item (seq 0 (length l)) false (l, log)) as [[found|e] [l' log']];
    [|done].
  by destruct found.
Qed.

Lemma seq_in_range (n k : nat) : k ∈ seq 0 n → k < n.
Proof. rewrite elem_of_seq. lia. Qed.

(** An entry that matches no child: the list is as it was, and the
    advisory is logged. *)
Lemma place_unmatched i item (l : list A) (log : Log) :
  (∀ c, c ∈ l → name_of c ≠ item) →
  place (i, item) (l, log) = (Ok tt, (l, log ++ [not_available item])).
Proof.
  intros Hno. rewrite place_unfold, scan_no_match; [done|].
  intros k c _ Hk. apply Hno. by eapply list_elem_of_lookup_2.
Qed.

Lemma place_in_range i item (l : list A) (log : Log) :
  i < length l →
  ∃ l' log', place (i, item) (l, log) = (Ok tt, (l', log')) ∧ l' ≡ₚ l.
Proof.
  intros Hi. rewrite place_unfold.
  destruct (scan_in_range i item (seq 0 (length l)) false l log Hi)
    as (f & l' & -> & Hp & _). eauto.
Qed.

(** An entry whose position is not below the number of children and whose
    name is the name of a child: [IndexError]. *)
Lemma place_out_of_range i item (l : list A) (log : Log) :
  length l ≤ i → (∃ c, c ∈ l ∧ name_of c = item) →
  place (i, item) (l, log) = (Raise IndexError, (l, log)).
Proof.
  intros Hi (c & [k Hk]%list_elem_of_lookup_1 & Hc).
  rewrite place_unfold, scan_out_of_range; auto using seq_in_range.
  exists k, c. split; [|done]. apply elem_of_seq.
  apply lookup_lt_Some in Hk. lia.
Qed.


(** *** The outer loop *)

Lemma for_each_cons {S B} (x : B) (xs : list B) (body : B → M S unit) (s : S) :
  for_each (x :: xs) body s =
    match body x s with
    | (Ok _, s') => for_each xs body s'
    | (Raise e, s') => (Raise e, s')
    end.
Proof. cbn [for_each]. msimpl. by destruct (body x s) as [[[]|e] s']. Qed.

Lemma elem_of_enumerate {B} (start : nat) (xs : list B) (i : nat) (x : B) :
  (i, x) ∈ enumerate start xs ↔ start ≤ i ∧ xs !! (i - start) = Some x.
Proof.
  revert start. induction xs as [|y xs IH]; intros start; cbn [enumerate].
  - rewrite elem_of_nil. split; [done|]. intros [_ Hx]. by rewrite lookup_nil in Hx.
  - rewrite elem_of_cons, IH. split.
    + intros [Heq|[Hle Hx]].
      * injection Heq as -> ->. by rewrite Nat.sub_diag.
      * split; [lia|]. by replace (i - start) with (S (i - S start)) by lia.
    + intros [Hle Hx]. destruct (decide (i = start)) as [->|Hne].
      * rewrite Nat.sub_diag in Hx. left. by injection Hx as ->.
      * right. split; [lia|].
        by replace (i - start) with (S (i - S start)) in Hx by lia.
Qed.

(** The loop ends normally, on a permutation of the children, when no entry
    at a position past the children names one of them. *)
Lemma reorder_completes (entries : list (nat * string)) (l : list A) (log : Log) :
  (∀ i item c, (i, item) ∈ entries → length l ≤ i → c ∈ l → name_of c ≠ item) →
  ∃ l' log', for_each entries place (l, log) = (Ok tt, (l', log')) ∧ l' ≡ₚ l.
Proof.
  revert l log. induction entries as [|[i item] rest IH]; intros l log Hok.
  { by exists l, log. }
  rewrite for_each_cons.
  assert (∃ l1 log1, place (i, item) (l, log) = (Ok tt, (l1, log1)) ∧ l1 ≡ₚ l)
    as (l1 & log1 & -> & Hp).
  { destruct (decide (i < length l)) as [Hi|Hi]; [by apply place_in_range|].
    exists l, (log ++ [not_available item]). split; [|done].
    apply place_unmatched. intros c. apply (Hok i item c); [left|lia]. }
  destruct (IH l1 log1) as (l' & log' & -> & Hp').
  { intros i' item' c Hin Hlen Hc. rewrite Hp in Hlen, Hc.
    apply (Hok i' item' c); [by right|done|done]. }
  exists l', log'. split; [done|]. by rewrite Hp'.
Qed.

(** The loop raises [IndexError] as soon as an entry at a position past the
    children names one of them. *)
Lemma reorder_raises (entries : list (nat * string)) (l : list A) (log : Log) i item :
  (i, item) ∈ entries → length l ≤ i → (∃ c, c ∈ l ∧ name_of c = item) →
  ∃ st, for_each entries place (l, log) = (Raise IndexError, st).
Proof.
  revert l log. induction entries as [|[i' item'] rest IH]; intros l log Hin Hi Hm.
  { by apply elem_of_nil in Hin. }
  rewrite for_each_cons.
  destruct (decide (i' < length l)) as [Hi'|Hi'].
  - destruct (place_in_range i' item' l log Hi') as (l1 & log1 & -> & Hp).
    apply IH.
    + apply elem_of_cons in Hin as [[= -> ->]|Hin]; [lia|done].
    + by rewrite Hp.
    + destruct Hm as (c & Hc & Hn). exists c. by rewrite Hp.
  - destruct (decide (item' ∈ name_of <$> l)) as [Hm'|Hm'].
    + apply list_elem_of_fmap in Hm' as (c & -> & Hc).
      rewrite place_out_of_range by (eauto; lia). eauto.
    + rewrite place_unmatched.
      * apply IH; [|done|done].
        apply elem_of_cons in Hin as [[= -> ->]|Hin]; [|done].
        destruct Hm as (c & Hc & Hn). exfalso. apply Hm'.
        apply list_elem_of_fmap. eauto.
      * intros c Hc Hn. apply Hm'. apply list_elem_of_fmap. eauto.
Qed.

(** *** The method *)

Lemma process_unfold (layout_list : option (list string)) (l : list A) (log : Log) :
  _process_components_per_layout name_of repr_of layout_list (l, log) =
    match layout_list with
    | Some layout =>
        if nonempty layout && nonempty l then
          match for_each (enumerate 0 layout) place (l, log ++ [reordering]) with
          | (Ok _, (l', log')) => (Ok tt, (l', log' ++ [reordered repr_of l']))
          | (Raise e, st) => (Raise e, st)
          end
        else (Ok tt, (l, log))
    | None => (Ok tt, (l, log))
    end.
Proof.
  unfold _process_components_per_layout. msimpl. cbn [fst].
  destruct layout_list as [layout|]; [|done].
  destruct (nonempty layout && nonempty l); [|done].
  by destruct (for_each _ _ _) as [[[]|e] [l' log']].
Qed.

Lemma iter_unfold (layout_list : option (list string)) (l : list A) (log : Log) :
  __iter__ name_of repr_of layout_list (l, log) =
    match _process_components_per_layout name_of repr_of layout_list (l, log) with
    | (Ok _, (l', log')) => (Ok l', (l', log'))
    | (Raise e, st) => (Raise e, st)
    end.
Proof.
  unfold __iter__. msimpl.
  by destruct (_process_components_per_layout _ _ _ _) as [[[]|e] [l' log']].
Qed.


(** *** Exchanges *)

Lemma swap_same (i : nat) (l : list A) : swap i i l = l.
Proof.
  unfold swap. destruct (l !! i) as [a|] eqn:Hi; [|done].
  by rewrite list_insert_insert_eq, list_insert_id.
Qed.

Lemma swap_perm (i j : nat) (l : list A) : swap i j l ≡ₚ l.
Proof.
  unfold swap. destruct (l !! i) as [a|] eqn:Hi; [|done].
  destruct (l !! j) as [b|] eqn:Hj; [|done].
  by apply Permutation_insert_swap.
Qed.

Lemma swap_lookup_ne (i j m : nat) (l : list A) :
  m ≠ i → m ≠ j → swap i j l !! m = l !! m.
Proof.
  intros Hi Hj. unfold swap. destruct (l !! i) as [a|]; [|done].
  destruct (l !! j) as [b|]; [|done].
  by rewrite !list_lookup_insert_ne.
Qed.

Lemma swap_lookup_l (i j : nat) (l : list A) a b :
  l !! i = Some a → l !! j = Some b → swap i j l !! i = Some b.
Proof.
  intros Hi Hj. unfold swap. rewrite Hi, Hj.
  destruct (decide (i = j)) as [->|Hne].
  - rewrite list_lookup_insert_eq by (rewrite length_insert; by eapply lookup_lt_Some).
    congruence.
  - rewrite list_lookup_insert_ne by done.
    apply list_lookup_insert_eq. by eapply lookup_lt_Some.
Qed.

Lemma swap_lookup_r (i j : nat) (l : list A) a b :
  l !! i = Some a → l !! j = Some b → swap i j l !! j = Some a.
Proof.
  intros Hi Hj. unfold swap. rewrite Hi, Hj.
  apply list_lookup_insert_eq. rewrite length_insert. by eapply lookup_lt_Some.
Qed.

(** *** Children with pairwise distinct names *)

Lemma seq_split_from (a j n : nat) :
  a ≤ j < a + n → seq a n = seq a (j - a) ++ [j] ++ seq (S j) (a + n - S j).
Proof.
  intros Hj. replace n with ((j - a) + S (a + n - S j)) at 1 by lia.
  rewrite seq_app. by replace (a + (j - a)) with j by lia.
Qed.

Lemma seq_split_at (j n : nat) :
  j < n → seq 0 n = seq 0 j ++ [j] ++ seq (S j) (n - S j).
Proof.
  intros Hj. rewrite (seq_split_from 0 j n) by lia.
  by rewrite Nat.sub_0_r.
Qed.

Lemma names_unique (l : list A) k k' c c' :
  NoDup (name_of <$> l) → l !! k = Some c → l !! k' = Some c' →
  name_of c = name_of c' → k = k'.
Proof.
  intros Hnd Hk Hk' Hn. eapply (NoDup_lookup _ _ _ _ Hnd).
  - by rewrite list_lookup_fmap, Hk.
  - rewrite list_lookup_fmap, Hk'. simpl. by rewrite Hn.
Qed.

(** With distinct names, an entry that names the child at [j] exchanges the
    positions [i] and [j], and nothing else happens. *)
Lemma place_unique i j item (l : list A) (log : Log) c :
  NoDup (name_of <$> l) → l !! j = Some c → name_of c = item → i < length l →
  place (i, item) (l, log) = (Ok tt, (swap i j l, log)).
Proof.
  intros Hnd Hj Hc Hi. rewrite place_unfold.
  destruct (lookup_lt_is_Some_2 l i Hi) as [a Ha].
  pose proof (lookup_lt_Some _ _ _ Hj) as Hjl.
  rewrite (seq_split_at j (length l)) by done.
  rewrite scan_app by (intros k Hk%elem_of_seq; lia).
  rewrite scan_no_match.
  2:{ intros k c' Hk%elem_of_seq Hl Hn.
      assert (k = j) by (eapply names_unique; eauto; congruence). lia. }
  rewrite scan_app by (intros k Hk%list_elem_of_singleton; lia).
  rewrite (scan_one_match i item j false l log a c) by done.
  destruct (scan_match_in_place i item (seq (S j) (length l - S j)) true
              (<[j := a]> (<[i := c]> l)) log) as (f & -> & Hf).
  { intros k c' Hk%elem_of_seq Hl Hn.
    destruct (decide (k = i)) as [|Hki]; [done|]. exfalso.
    rewrite list_lookup_insert_ne in Hl by lia.
    rewrite list_lookup_insert_ne in Hl by done.
    assert (k = j) by (eapply names_unique; eauto; congruence). lia. }
  rewrite (Hf eq_refl). unfold swap. by rewrite Ha, Hj.
Qed.

(** One pass: what it has placed stays in place. *)
Lemma first_pass (rest placed : list string) (l l' : list A) (log log' : Log) :
  NoDup (name_of <$> l) → NoDup (placed ++ rest) → in_place name_of placed l →
  for_each (enumerate (length placed) rest) place (l, log) = (Ok tt, (l', log')) →
  in_place name_of (placed ++ rest) l' ∧ l' ≡ₚ l.
Proof.
  revert placed l log. induction rest as [|item rest IH]; intros placed l log Hnd Hnl Hin.
  { cbn. intros [= <- <-]. by rewrite app_nil_r. }
  cbn [enumerate]. rewrite for_each_cons.
  assert (NoDup ((placed ++ [item]) ++ rest)) as Hnl' by (by rewrite <- app_assoc).
  assert (item ∉ placed) as Hfresh.
  { apply NoDup_app in Hnl as (_ & Hd & _). intros Hp. apply (Hd item Hp). by left. }
  destruct (decide (item ∈ name_of <$> l)) as [Hm|Hm].
  - apply list_elem_of_fmap in Hm as (c & -> & [j Hj]%list_elem_of_lookup_1).
    destruct (decide (length placed < length l)) as [Hi|Hi].
    + rewrite (place_unique _ j _ _ _ c) by done.
      intros Hrun.
      replace (S (length placed)) with (length (placed ++ [name_of c])) in Hrun
        by (rewrite length_app; simpl; lia).
      apply IH in Hrun.
      * rewrite <- app_assoc in Hrun. destruct Hrun as [Hip Hp].
        split; [done|]. by rewrite Hp, swap_perm.
      * by rewrite swap_perm.
      * done.
      * (* the exchange keeps the placed children in place and places [c] *)
        assert (NoDup (name_of <$> swap (length placed) j l)) as Hnd'
          by (by rewrite swap_perm).
        destruct (lookup_lt_is_Some_2 l _ Hi) as [a Ha].
        intros m item' j' c' Hm Hj' Hn'.
        apply lookup_app_Some in Hm as [Hm|[Hlen Hm]].
        -- (* an earlier entry: its child was already at [m], and stays *)
           assert (c' ∈ l) as [j0 Hj0]%list_elem_of_lookup_1.
           { rewrite <- (swap_perm (length placed) j l). by eapply list_elem_of_lookup_2. }
           assert (j0 = m) as -> by (by eapply Hin).
           pose proof (lookup_lt_Some _ _ _ Hm) as Hml.
           assert (m ≠ j).
           { intros ->. rewrite Hj in Hj0. injection Hj0 as <-.
             apply Hfresh. rewrite Hn'. by eapply list_elem_of_lookup_2. }
           eapply (names_unique _ _ _ c' c' Hnd'); [done| |done].
           rewrite swap_lookup_ne by lia. done.
        -- (* the entry itself *)
           destruct (length placed) as [|n] eqn:Hlp.
           ++ destruct m as [|m]; simpl in Hm; [|by destruct m].
              injection Hm as <-.
              eapply (names_unique _ _ _ c' c Hnd'); [done| |done].
              by eapply swap_lookup_l.
           ++ assert (m = S n) as ->.
              { apply lookup_lt_Some in Hm. simpl in Hm. lia. }
              rewrite Nat.sub_diag in Hm. injection Hm as <-.
              eapply (names_unique _ _ _ c' c Hnd'); [done| |done].
              by eapply swap_lookup_l.
    + rewrite place_out_of_range; [done|lia|].
      exists c. split; [by eapply list_elem_of_lookup_2|done].
  - rewrite place_unmatched.
    2:{ intros c Hc Hn. apply Hm. apply list_elem_of_fmap. eauto. }
    intros Hrun.
    replace (S (length placed)) with (length (placed ++ [item])) in Hrun
      by (rewrite length_app; simpl; lia).
    apply IH in Hrun; [by rewrite <- app_assoc in Hrun|done|done|].
    intros m item' j' c' Hm' Hj' Hn'.
    apply lookup_app_Some in Hm' as [Hm'|[Hlen Hm']]; [by eapply Hin|].
    exfalso. apply Hm. apply list_elem_of_fmap. exists c'.
    split; [|by eapply list_elem_of_lookup_2].
    destruct (m - length placed) as [|n]; simpl in Hm'; [|by destruct n].
    congruence.
Qed.

(** A pass over children that are all in place changes nothing. *)
Lemma second_pass (entries : list (nat * string)) (layout : list string)
    (l : list A) (log : Log) :
  NoDup (name_of <$> l) → in_place name_of layout l →
  (∀ i item, (i, item) ∈ entries → layout !! i = Some item) →
  ∃ log', for_each entries place (l, log) = (Ok tt, (l, log')).
Proof.
  intros Hnd Hin. revert log. induction entries as [|[i item] rest IH]; intros log Hsub.
  { by exists log. }
  rewrite for_each_cons.
  assert (∀ i' item', (i', item') ∈ rest → layout !! i' = Some item') as Hrest
    by (intros ???; apply Hsub; by right).
  destruct (decide (item ∈ name_of <$> l)) as [Hm|Hm].
  - apply list_elem_of_fmap in Hm as (c & -> & [j Hj]%list_elem_of_lookup_1).
    assert (j = i) as -> by (eapply Hin; [apply Hsub; left|done|done]).
    rewrite (place_unique _ i _ _ _ c), swap_same; eauto using lookup_lt_Some.
  - rewrite place_unmatched; [by apply IH|].
    intros c Hc Hn. apply Hm. apply list_elem_of_fmap. eauto.
Qed.


(** *** Two children with the same name *)

(** C2, amended. The scan does not stop at its first match: every child that
    bears the name of the entry is exchanged with the layout position in
    turn.  With exactly two such children, at [p < q], and the layout
    position [i] in range, the position ends up holding the child that was at
    [q], the last match, unless [i] is [q] itself, when it holds the child
    that was at [p]. *)
Theorem scan_keeps_last_match i p q item (l : list A) (log : Log) P Q :
  p < q → l !! p = Some P → l !! q = Some Q →
  name_of P = item → name_of Q = item →
  (∀ k c, l !! k = Some c → name_of c = item → k = p ∨ k = q) →
  i < length l →
  ∃ l', place_item name_of (i, item) (l, log) = (Ok tt, (l', log))
        ∧ l' !! i = Some (if decide (i = q) then P else Q).
Proof.
  intros Hpq Hp Hq HP HQ Honly Hi. rewrite place_unfold.
  destruct (lookup_lt_is_Some_2 l i Hi) as [a0 Ha0].
  pose proof (lookup_lt_Some _ _ _ Hq) as Hql.
  rewrite (seq_split_at p (length l)) by lia.
  rewrite scan_app by (intros k Hk%elem_of_seq; lia).
  rewrite scan_no_match.
  2:{ intros k c Hk%elem_of_seq Hl Hn. destruct (Honly k c Hl Hn); lia. }
  rewrite scan_app by (intros k Hk%list_elem_of_singleton; lia).
  rewrite (scan_one_match i item p false l log a0 P) by done.
  set (l1 := <[p := a0]> (<[i := P]> l)).
  assert (length l1 = length l) as Hl1 by (unfold l1; by rewrite !length_insert).
  assert (l1 !! i = Some P) as Hl1i.
  { unfold l1. destruct (decide (i = p)) as [->|Hip].
    - rewrite list_lookup_insert_eq by (by rewrite length_insert). congruence.
    - rewrite list_lookup_insert_ne by done. by apply list_lookup_insert_eq. }
  assert (∀ k, k ≠ i → k ≠ p → l1 !! k = l !! k) as Hl1k.
  { intros k Hki Hkp. unfold l1. by rewrite !list_lookup_insert_ne. }
  rewrite (seq_split_from (S p) q (length l - S p)) by lia.
  replace (S p + (length l - S p) - S q) with (length l - S q) by lia.
  rewrite scan_app by (intros k Hk%elem_of_seq; lia).
  destruct (scan_match_in_place i item (seq (S p) (q - S p)) true l1 log)
    as (f1 & -> & Hf1).
  { intros k c Hk%elem_of_seq Hl Hn.
    destruct (decide (k = i)) as [|Hki]; [done|]. exfalso.
    rewrite Hl1k in Hl by lia. destruct (Honly k c Hl Hn); lia. }
  rewrite (Hf1 eq_refl).
  rewrite scan_app by (intros k Hk%list_elem_of_singleton; lia).
  destruct (decide (i = q)) as [->|Hiq].
  - (* the layout position is that of the second child *)
    destruct (scan_match_in_place q item [q] true l1 log) as (f2 & -> & Hf2).
    { by intros k c ->%list_elem_of_singleton _ _. }
    rewrite (Hf2 eq_refl).
    destruct (scan_match_in_place q item (seq (S q) (length l - S q)) true l1 log)
      as (f3 & -> & Hf3).
    { intros k c Hk%elem_of_seq Hl Hn. exfalso.
      rewrite Hl1k in Hl by lia. destruct (Honly k c Hl Hn); lia. }
    rewrite (Hf3 eq_refl). eauto.
  - assert (l1 !! q = Some Q) as Hl1q by (rewrite Hl1k by lia; done).
    rewrite (scan_one_match i item q true l1 log P Q) by done.
    set (l2 := <[q := P]> (<[i := Q]> l1)).
    destruct (scan_match_in_place i item (seq (S q) (length l - S q)) true l2 log)
      as (f3 & -> & Hf3).
    { intros k c Hk%elem_of_seq Hl Hn.
      destruct (decide (k = i)) as [|Hki]; [done|]. exfalso.
      unfold l2 in Hl. rewrite !list_lookup_insert_ne in Hl by lia.
      rewrite Hl1k in Hl by lia. destruct (Honly k c Hl Hn); lia. }
    rewrite (Hf3 eq_refl). exists l2. split; [done|].
    unfold l2. rewrite list_lookup_insert_ne by done.
    apply list_lookup_insert_eq. lia.
Qed.

(** *** The claims on one pass and on two *)

(** C5. A layout entry whose name no child bears leaves the children as they
    are (the occupant of its position with them), logs the advisory, raises
    nothing, and the loop goes on with the next entry. *)
Theorem unmatched_entry_is_skipped i item (rest : list string) (l : list A) (log : Log) :
  (∀ c, c ∈ l → name_of c ≠ item) →
  place_item name_of (i, item) (l, log) = (Ok tt, (l, log ++ [not_available item]))
  ∧ for_each (enumerate i (item :: rest)) (place_item name_of) (l, log)
    = for_each (enumerate (S i) rest) (place_item name_of) (l, log ++ [not_available item]).
Proof.
  intros Hno. split; [by apply place_unmatched|].
  cbn [enumerate]. by rewrite for_each_cons, place_unmatched.
Qed.

(** C1, as the code has it. When the layout has an entry at a position that
    is not below the number of children and a child bears the name of that
    entry, reconciliation does not complete: it raises [IndexError], and so
    does the iteration over the children. *)
Theorem out_of_range_entry_raises (layout : list string) (l : list A) (log : Log)
    i item c :
  layout !! i = Some item → length l ≤ i → c ∈ l → name_of c = item →
  ∃ st, _process_components_per_layout name_of repr_of (Some layout) (l, log)
        = (Raise IndexError, st)
        ∧ __iter__ name_of repr_of (Some layout) (l, log) = (Raise IndexError, st).
Proof.
  intros Hi Hlen Hc Hn. rewrite iter_unfold, process_unfold.
  replace (nonempty layout) with true by (by destruct layout).
  replace (nonempty l) with true by (destruct l; [by apply elem_of_nil in Hc|done]).
  cbn [andb].
  destruct (reorder_raises (enumerate 0 layout) l (log ++ [reordering]) i item)
    as (st & ->); eauto.
  apply elem_of_enumerate. split; [lia|]. by rewrite Nat.sub_0_r.
Qed.

(** The same for the iteration alone, whatever the elements are. *)
Lemma iter_raises (layout : list string) (l : list A) (log : Log) i item c :
  layout !! i = Some item → length l ≤ i → c ∈ l → name_of c = item →
  ∃ st, __iter__ name_of repr_of (Some layout) (l, log) = (Raise IndexError, st).
Proof.
  intros Hi Hlen Hc Hn. rewrite iter_unfold, process_unfold.
  replace (nonempty layout) with true by (by destruct layout).
  replace (nonempty l) with true by (destruct l; [by apply elem_of_nil in Hc|done]).
  cbn [andb].
  destruct (reorder_raises (enumerate 0 layout) l (log ++ [reordering]) i item)
    as (st & ->); eauto.
  apply elem_of_enumerate. split; [lia|]. by rewrite Nat.sub_0_r.
Qed.

(** Reconciliation completes, on a permutation of the children, when no
    entry past the children bears the name of a child; in particular when
    the layout is not longer than the list of children. *)
Lemma process_completes (layout_list : option (list string)) (l : list A) (log : Log) :
  (∀ layout i item c, layout_list = Some layout → layout !! i = Some item →
                      length l ≤ i → c ∈ l → name_of c ≠ item) →
  ∃ l' log', _process_components_per_layout name_of repr_of layout_list (l, log)
             = (Ok tt, (l', log')) ∧ l' ≡ₚ l.
Proof.
  intros Hok. rewrite process_unfold.
  destruct layout_list as [layout|]; [|by exists l, log].
  destruct (nonempty layout && nonempty l); [|by exists l, log].
  destruct (reorder_completes (enumerate 0 layout) l (log ++ [reordering]))
    as (l' & log' & -> & Hp); [|eauto].
  intros i item c [_ Hin]%elem_of_enumerate. rewrite Nat.sub_0_r in Hin.
  by eapply Hok.
Qed.

(** C3, amended. For children with pairwise distinct names and a layout with
    pairwise distinct entries, an iteration that completes leaves the children
    in an order that a second iteration, with no child added in between,
    returns unchanged. *)
Theorem second_iteration_same_order (layout_list : option (list string))
    (l l1 l1' : list A) (log log1 : Log) :
  NoDup (name_of <$> l) →
  (∀ layout, layout_list = Some layout → NoDup layout) →
  __iter__ name_of repr_of layout_list (l, log) = (Ok l1, (l1', log1)) →
  ∃ log2, __iter__ name_of repr_of layout_list (l1', log1) = (Ok l1, (l1', log2)).
Proof.
  intros Hnd Hnl. rewrite !iter_unfold, !process_unfold.
  destruct layout_list as [layout|]; [|intros [= <- <- <-]; by exists log].
  specialize (Hnl layout eq_refl).
  destruct (nonempty layout && nonempty l) eqn:Hg.
  2:{ intros [= <- <- <-]. rewrite Hg. by exists log. }
  destruct (for_each _ _ _) as [[[]|e] [l' log']] eqn:Hrun; [|done].
  intros [= <- <- <-].
  apply (first_pass layout [] l l') in Hrun as [Hin Hp]; [|done|done|].
  2:{ intros m item j c Hm. by rewrite lookup_nil in Hm. }
  replace (nonempty l') with (nonempty l).
  2:{ apply Permutation_length in Hp. by destruct l, l'. }
  rewrite Hg.
  destruct (second_pass (enumerate 0 layout) layout l'
              ((log' ++ [reordered repr_of l']) ++ [reordering])) as (log2 & ->).
  - by rewrite Hp.
  - done.
  - intros i item [_ Hi]%elem_of_enumerate. by rewrite Nat.sub_0_r in Hi.
  - eauto.
Qed.

(** C4. With the layout [B, A] and the children [a; c; b] named [A], [C] and
    [B], the entry at 0 matches [B] at index 2 and gives [b; c; a], the entry
    at 1 then matches [A] at index 2 and gives [b; a; c], which is the order
    reconciliation leaves. *)
Theorem layout_B_A_on_A_C_B (a c b : A) (log : Log) :
  name_of a = "A" → name_of c = "C" → name_of b = "B" →
  place_item name_of (0, "B") ([a; c; b], log) = (Ok tt, ([b; c; a], log))
  ∧ place_item name_of (1, "A") ([b; c; a], log) = (Ok tt, ([b; a; c], log))
  ∧ _process_components_per_layout name_of repr_of (Some ["B"; "A"]) ([a; c; b], log)
    = (Ok tt, ([b; a; c], log ++ [reordering; reordered repr_of [b; a; c]])).
Proof.
  intros Ha Hc Hb.
  assert (∀ log', place_item name_of (0, "B") ([a; c; b], log') = (Ok tt, ([b; c; a], log')))
    as H0.
  { intros log'. rewrite (place_unique 0 2 "B" [a; c; b] log' b); [done| |done|done|simpl; lia].
    cbn [fmap list_fmap]. rewrite Ha, Hc, Hb. by apply (bool_decide_unpack _). }
  assert (∀ log', place_item name_of (1, "A") ([b; c; a], log') = (Ok tt, ([b; a; c], log')))
    as H1.
  { intros log'. rewrite (place_unique 1 2 "A" [b; c; a] log' a); [done| |done|done|simpl; lia].
    cbn [fmap list_fmap]. rewrite Ha, Hc, Hb. by apply (bool_decide_unpack _). }
  split; [apply H0|]. split; [apply H1|].
  rewrite process_unfold. cbn [nonempty andb enumerate].
  rewrite for_each_cons, H0. cbv beta iota.
  rewrite for_each_cons, H1. cbv beta iota.
  cbn [for_each]. msimpl. by rewrite <- app_assoc.
Qed.

(** *** Whatever completes is a permutation *)

Lemma scan_ok_perm i item idxs found found' (l l' : list A) (log log' : Log) :
  scan i item idxs found (l, log) = (Ok found', (l', log')) → l' ≡ₚ l.
Proof.
  revert found l. induction idxs as [|k rest IH]; intros found l.
  { by intros [= _ <- _]. }
  rewrite scan_cons. destruct (l !! k) as [c|] eqn:Hk; [|by intros [= _ <- _]].
  destruct (String.eqb (name_of c) item); [|by apply IH].
  destruct (l !! i) as [a|] eqn:Hi; [|done].
  intros Hrun%IH. rewrite Hrun. by apply Permutation_insert_swap.
Qed.

Lemma place_ok_perm entry (l l' : list A) (log log' : Log) :
  place entry (l, log) = (Ok tt, (l', log')) → l' ≡ₚ l.
Proof.
  destruct entry as [i item]. rewrite place_unfold.
  destruct (scan i item (seq 0 (length l)) false (l, log)) as [[f|e] [l1 log1]] eqn:Hs;
    [|done].
  intros [= <- _]. by eapply scan_ok_perm.
Qed.

Lemma reorder_ok_perm (entries : list (nat * string)) (l l' : list A) (log log' : Log) :
  for_each entries place (l, log) = (Ok tt, (l', log')) → l' ≡ₚ l.
Proof.
  revert l log. induction entries as [|entry rest IH]; intros l log.
  { by intros [= <- _]. }
  rewrite for_each_cons.
  destruct (place entry (l, log)) as [[[]|e] [l1 log1]] eqn:Hp; [|done].
  intros Hrun%IH. rewrite Hrun. by eapply place_ok_perm.
Qed.

Lemma iter_ok_perm (layout_list : option (list string)) (l l1 l1' : list A)
    (log log' : Log) :
  __iter__ name_of repr_of layout_list (l, log) = (Ok l1, (l1', log')) →
  l1 = l1' ∧ l1 ≡ₚ l.
Proof.
  rewrite iter_unfold, process_unfold.
  destruct layout_list as [layout|]; [|by intros [= <- <- _]].
  destruct (nonempty layout && nonempty l); [|by intros [= <- <- _]].
  destruct (for_each _ _ _) as [[[]|e] [l2 log2]] eqn:Hrun; [|done].
  intros [= <- <- _]. split; [done|]. by eapply reorder_ok_perm.
Qed.

End LayoutFacts.

(** ** [has_commands] *)

Section TabFacts.
Context `{Host}.

Lemma has_commands_unfold (self : GenericContainer.attrs) (subs : list Component) :
  has_commands (ContainerObj self subs) =
    match GenericContainer.class self with
    | GenericContainer.Tab =>
        match __iter__ (component_name ∘ fst) (component_repr ∘ fst)
                (GenericContainer.layout_list self)
                ((λ panel, (panel, has_commands panel)) <$> subs, []) with
        | (Ok panels, _) => first_has_commands panels
        | (Raise e, _) => Raise e
        end
    | GenericContainer.Panel => Ok (Panel_has_commands subs)
    | _ => Raise AttributeError
    end.
Proof. reflexivity. Qed.

Lemma panel_has_commands_iff (subs : list Component) :
  Panel_has_commands subs = true ↔ subs ≠ [].
Proof. by destruct subs. Qed.

Lemma has_commands_panel (panel : Component) :
  is_panel panel → has_commands panel = Ok (Panel_has_commands (children_of panel)).
Proof.
  destruct panel as [self subs|c]; [|done]. intros Hp.
  rewrite has_commands_unfold. unfold is_panel in Hp. by rewrite Hp.
Qed.

(** The loop of [Tab.has_commands] over children whose calls all return. *)
Lemma first_has_commands_returns (panels : list (Component * result bool)) :
  (∀ x, x ∈ panels → ∃ b, x.2 = Ok b) →
  ∃ b, first_has_commands panels = Ok b
       ∧ (b = true ↔ ∃ x, x ∈ panels ∧ x.2 = Ok true).
Proof.
  induction panels as [|[panel [[]|e]] rest IH]; intros Hall.
  - exists false. split; [done|]. split; [done|]. intros (x & Hx & _).
    by apply elem_of_nil in Hx.
  - exists true. split; [done|]. split; [|done]. intros _. eexists. split; [left|done].
  - destruct IH as (b & Hb & Hiff); [intros x Hx; apply Hall; by right|].
    exists b. split; [done|]. rewrite Hiff. split.
    + intros (x & Hx & Hok). exists x. split; [by right|done].
    + intros (x & [->|Hx]%elem_of_cons & Hok); [done|eauto].
  - destruct (Hall (panel, Raise e)) as [b Hb]; [left|done].
Qed.

(** C10, as the code has it. [Tab.has_commands] iterates over the tab, and
    the iteration reorders the children first: when the layout of the tab
    has an entry at a position that is not below the number of children and
    a child bears the name of that entry, the call raises [IndexError] and
    returns nothing, whatever the panels hold, also when one of them has a
    direct child. *)
Theorem tab_has_commands_raises (self : GenericContainer.attrs) (subs : list Component)
    (layout : list string) i item c :
  GenericContainer.class self = GenericContainer.Tab →
  GenericContainer.layout_list self = Some layout →
  layout !! i = Some item → length subs ≤ i → c ∈ subs → component_name c = item →
  Tab_has_commands self subs = Raise IndexError.
Proof.
  intros Htab Hlayout Hi Hlen Hc Hn. unfold Tab_has_commands.
  rewrite has_commands_unfold, Htab, Hlayout.
  destruct (iter_raises (component_name ∘ fst) (component_repr ∘ fst) layout
              ((λ panel, (panel, has_commands panel)) <$> subs) [] i item
              (c, has_commands c)) as (st & ->); try done.
  - by rewrite length_fmap.
  - apply list_elem_of_fmap. by exists c.
Qed.

(** X20. For a tab whose children are panels, whatever [Tab.has_commands]
    returns is [True] exactly when one of its panels has a direct child: it
    asks each panel, whose own check is the shallow
    [len(self._sub_components) > 0] and goes no deeper.  It does return when
    the iteration over the panels completes (no layout entry past the
    children bears the name of one), and a tab with no panel gets [False]. *)
Theorem tab_has_commands_iff (self : GenericContainer.attrs) (subs : list Component) :
  GenericContainer.class self = GenericContainer.Tab →
  (∀ panel, panel ∈ subs → is_panel panel) →
  (∀ panel, panel ∈ subs →
     has_commands panel = Ok (Panel_has_commands (children_of panel))
     ∧ (Panel_has_commands (children_of panel) = true ↔ children_of panel ≠ []))
  ∧ (∀ b, Tab_has_commands self subs = Ok b →
          (b = true ↔ ∃ panel, panel ∈ subs ∧ children_of panel ≠ []))
  ∧ ((∀ layout i item c, GenericContainer.layout_list self = Some layout →
                         layout !! i = Some item → length subs ≤ i → c ∈ subs →
                         component_name c ≠ item) →
     ∃ b, Tab_has_commands self subs = Ok b)
  ∧ (subs = [] → Tab_has_commands self subs = Ok false).
Proof.
  intros Htab Hpanels.
  set (paired := (λ panel, (panel, has_commands panel)) <$> subs).
  assert (∀ x, x ∈ paired ↔
               ∃ panel, panel ∈ subs ∧ x = (panel, Ok (Panel_has_commands (children_of panel))))
    as Hpaired.
  { intros x. unfold paired. rewrite list_elem_of_fmap. split.
    - intros (panel & -> & Hin). exists panel. split; [done|].
      by rewrite has_commands_panel by auto.
    - intros (panel & Hin & ->). exists panel. split; [|done].
      by rewrite has_commands_panel by auto. }
  assert (∀ panels, panels ≡ₚ paired →
            ∃ b, first_has_commands panels = Ok b
                 ∧ (b = true ↔ ∃ panel, panel ∈ subs ∧ children_of panel ≠ []))
    as Hloop.
  { intros panels Hperm.
    destruct (first_has_commands_returns panels) as (b & Hb & Hiff).
    { intros x Hx. rewrite Hperm in Hx. apply Hpaired in Hx as (panel & _ & ->). eauto. }
    exists b. split; [done|]. rewrite Hiff. setoid_rewrite <- panel_has_commands_iff. split.
    - intros (x & Hx & Hok). rewrite Hperm in Hx.
      apply Hpaired in Hx as (panel & Hin & ->). exists panel. split; [done|].
      cbn in Hok. congruence.
    - intros (panel & Hin & Hok). exists (panel, Ok true). split; [|done].
      rewrite Hperm. apply Hpaired. exists panel. by rewrite Hok. }
  split; [|split; [|split]].
  - intros panel Hin. split; [by apply has_commands_panel, Hpanels|].
    apply panel_has_commands_iff.
  - intros b. unfold Tab_has_commands. rewrite has_commands_unfold, Htab.
    fold paired.
    destruct (__iter__ _ _ _ _) as [[panels|e] [panels' log']] eqn:Hiter; [|done].
    apply iter_ok_perm in Hiter as [_ Hperm].
    destruct (Hloop panels Hperm) as (b' & -> & Hiff). by intros [= <-].
  - intros Hlayout. unfold Tab_has_commands.
    rewrite has_commands_unfold, Htab, iter_unfold. fold paired.
    destruct (process_completes (component_name ∘ fst) (component_repr ∘ fst)
                (GenericContainer.layout_list self) paired [])
      as (panels & log' & -> & Hperm).
    { intros layout i item x Hl Hi Hlen Hx.
      apply Hpaired in Hx as (panel & Hin & ->). cbn.
      apply (Hlayout layout i item panel); try done.
      unfold paired in Hlen. by rewrite length_fmap in Hlen. }
    destruct (Hloop panels Hperm) as (b & Hb & _). eauto.
  - intros ->. unfold Tab_has_commands.
    rewrite has_commands_unfold, Htab, iter_unfold, process_unfold. cbn.
    by destruct (GenericContainer.layout_list self) as [[|]|].
Qed.

End TabFacts.

(** ** The claims on concrete containers *)

Lemma out_of_range_entry_raises_witness :
  ∃ st, _process_components_per_layout component_name (component_repr (H := sample_host))
          (Some ["X"; "Y"; "A"]) ([panel_A; panel_B], [])
        = (Raise IndexError, st)
        ∧ __iter__ component_name (component_repr (H := sample_host))
            (Some ["X"; "Y"; "A"]) ([panel_A; panel_B], [])
          = (Raise IndexError, st).
Proof.
  apply (out_of_range_entry_raises component_name (component_repr (H := sample_host))
           ["X"; "Y"; "A"] [panel_A; panel_B] [] 2 "A" panel_A).
  - reflexivity.
  - simpl. lia.
  - left.
  - reflexivity.
Defined.

Lemma scan_keeps_last_match_witness :
  ∃ l', place_item component_name (0, "A") ([panel_B; panel_A1; panel_A2], [])
        = (Ok tt, (l', []))
        ∧ l' !! 0 = Some panel_A2.
Proof.
  apply (scan_keeps_last_match component_name 0 1 2 "A"
           [panel_B; panel_A1; panel_A2] [] panel_A1 panel_A2).
  - lia.
  - reflexivity.
  - reflexivity.
  - reflexivity.
  - reflexivity.
  - intros [|[|[|k]]] c; simpl; intros [= <-]; vm_compute; intros; auto; discriminate.
  - simpl. lia.
Defined.

(** C2 as the specification states it fails on the children [B, A1, A2], the
    last two named [A], and the entry [A] at position 0: the first match in
    scan order is [A1], at index 1, and it is [A2] that ends at position 0. *)
Lemma first_match_wins_counterexample :
  list_find (λ c, component_name c = "A") [panel_B; panel_A1; panel_A2] = Some (1, panel_A1)
  ∧ place_item component_name (0, "A") ([panel_B; panel_A1; panel_A2], [])
    = (Ok tt, ([panel_A2; panel_B; panel_A1], []))
  ∧ [panel_A2; panel_B; panel_A1] !! 0 ≠ Some panel_A1.
Proof. split; [|split]; vm_compute; [reflexivity|reflexivity|discriminate]. Qed.

Lemma second_iteration_same_order_witness :
  ∃ log2, __iter__ component_name (component_repr (H := sample_host)) (Some ["B"; "A"])
            ([panel_B; panel_A; panel_C],
             [reordering; reordered (component_repr (H := sample_host))
                            [panel_B; panel_A; panel_C]])
          = (Ok [panel_B; panel_A; panel_C], ([panel_B; panel_A; panel_C], log2)).
Proof.
  apply (second_iteration_same_order component_name (component_repr (H := sample_host))
           (Some ["B"; "A"]) [panel_A; panel_C; panel_B]
           [panel_B; panel_A; panel_C] [panel_B; panel_A; panel_C] []).
  - apply (bool_decide_unpack _). vm_compute. exact I.
  - intros layout [= <-]. apply (bool_decide_unpack _). vm_compute. exact I.
  - vm_compute. reflexivity.
Defined.

(** C3 as the specification states it fails on two children with the same
    display name: with the layout [A], a first iteration over [A1, A2]
    returns [A2, A1], and a second one, with nothing added in between,
    returns [A1, A2]. *)
Lemma second_iteration_counterexample :
  ∃ log1 log2,
    __iter__ component_name (component_repr (H := sample_host)) (Some ["A"])
      ([panel_A1; panel_A2], [])
    = (Ok [panel_A2; panel_A1], ([panel_A2; panel_A1], log1))
    ∧ __iter__ component_name (component_repr (H := sample_host)) (Some ["A"])
        ([panel_A2; panel_A1], log1)
      = (Ok [panel_A1; panel_A2], ([panel_A1; panel_A2], log2))
    ∧ [panel_A2; panel_A1] ≠ [panel_A1; panel_A2].
Proof.
  eexists _, _. split; [vm_compute; reflexivity|].
  split; [vm_compute; reflexivity|]. discriminate.
Qed.

(** Repeated layout entries break the stability as well, for children with
    distinct names: with the layout [A, A, A], a first iteration over
    [A, B, C] returns [B, C, A] and a second one [C, B, A]. *)
Example repeated_entries_not_stable :
  ∃ log1 log2,
    __iter__ component_name (component_repr (H := sample_host)) (Some ["A"; "A"; "A"])
      ([panel_A; panel_B; panel_C], [])
    = (Ok [panel_B; panel_C; panel_A], ([panel_B; panel_C; panel_A], log1))
    ∧ __iter__ component_name (component_repr (H := sample_host)) (Some ["A"; "A"; "A"])
        ([panel_B; panel_C; panel_A], log1)
      = (Ok [panel_C; panel_B; panel_A], ([panel_C; panel_B; panel_A], log2)).
Proof. eexists _, _. split; vm_compute; reflexivity. Qed.

Lemma layout_B_A_on_A_C_B_witness :
  place_item component_name (0, "B") ([panel_A; panel_C; panel_B], [])
  = (Ok tt, ([panel_B; panel_C; panel_A], []))
  ∧ place_item component_name (1, "A") ([panel_B; panel_C; panel_A], [])
    = (Ok tt, ([panel_B; panel_A; panel_C], []))
  ∧ _process_components_per_layout component_name (component_repr (H := sample_host))
      (Some ["B"; "A"]) ([panel_A; panel_C; panel_B], [])
    = (Ok tt, ([panel_B; panel_A; panel_C],
               [] ++ [reordering; reordered (component_repr (H := sample_host))
                                    [panel_B; panel_A; panel_C]])).
Proof.
  apply (layout_B_A_on_A_C_B component_name (component_repr (H := sample_host))
           panel_A panel_C panel_B []); reflexivity.
Defined.

Lemma unmatched_entry_is_skipped_witness :
  place_item component_name (0, "X") ([panel_A; panel_B], [])
  = (Ok tt, ([panel_A; panel_B], [] ++ [not_available "X"]))
  ∧ for_each (enumerate 0 ["X"; "A"]) (place_item component_name) ([panel_A; panel_B], [])
    = for_each (enumerate 1 ["A"]) (place_item component_name)
        ([panel_A; panel_B], [] ++ [not_available "X"]).
Proof.
  apply (unmatched_entry_is_skipped component_name 0 "X" ["A"] [panel_A; panel_B] []).
  intros c [->|[->|[]%elem_of_nil]%elem_of_cons]%elem_of_cons; vm_compute; discriminate.
Defined.

Lemma tab_has_commands_raises_witness :
  Tab_has_commands (H := sample_host) (sample_tab (Some ["X"; "Y"; "Edit"]))
    [panel_Edit; panel_B] = Raise IndexError
  ∧ is_panel panel_Edit ∧ is_panel panel_B
  ∧ children_of panel_Edit = [CommandObj flip_doors].
Proof.
  split; [|done].
  apply (tab_has_commands_raises (H := sample_host) (sample_tab (Some ["X"; "Y"; "Edit"]))
           [panel_Edit; panel_B] ["X"; "Y"; "Edit"] 2 "Edit" panel_Edit).
  - reflexivity.
  - reflexivity.
  - reflexivity.
  - simpl. lia.
  - left.
  - vm_compute. reflexivity.
Defined.

Lemma tab_has_commands_iff_witness :
  Tab_has_commands (H := sample_host) (sample_tab (Some ["B"; "Edit"]))
    [panel_Edit; panel_B] = Ok true
  ∧ ∃ panel, panel ∈ [panel_Edit; panel_B] ∧ children_of panel ≠ [].
Proof.
  destruct (tab_has_commands_iff (H := sample_host) (sample_tab (Some ["B"; "Edit"]))
              [panel_Edit; panel_B]) as (_ & Hright & Hreturns & _).
  - reflexivity.
  - intros panel [->|[->|[]%elem_of_nil]%elem_of_cons]%elem_of_cons; reflexivity.
  - destruct Hreturns as [b Hb].
    { intros layout i item c [= <-] Hi%lookup_lt_Some Hlen. simpl in *. lia. }
    assert (∃ panel, panel ∈ [panel_Edit; panel_B] ∧ children_of panel ≠ []) as Hex.
    { exists panel_Edit. split; [left|discriminate]. }
    split; [|exact Hex]. rewrite Hb. f_equal. by apply (Hright b Hb).
Defined.

(** ** More on reconciliation and iteration *)

Section LayoutMore.
Context {A : Type} (name_of repr_of : A → string).

Local Abbreviation scan := (scan_components name_of).
Local Abbreviation place := (place_item name_of).

(** *** Whatever the outcome *)

Lemma scan_outcome i item idxs found r (l l' : list A) (log log' : Log) :
  scan i item idxs found (l, log) = (r, (l', log')) →
  l' ≡ₚ l ∧ log' = log ∧ ∀ e, r = Raise e → e = IndexError.
Proof.
  revert found l. induction idxs as [|k rest IH]; intros found l.
  { by intros [= <- <- <-]. }
  rewrite scan_cons. destruct (l !! k) as [c|] eqn:Hk; [|by intros [= <- <- <-]].
  destruct (String.eqb (name_of c) item); [|by apply IH].
  destruct (l !! i) as [a|] eqn:Hi.
  - intros (Hp & Hl & He)%IH. split; [|done].
    rewrite Hp. by apply Permutation_insert_swap.
  - intros [= <- <- <-]. split; [done|]. split; [done|]. by intros e [= <-].
Qed.

Lemma place_outcome entry r (l l' : list A) (log log' : Log) :
  place entry (l, log) = (r, (l', log')) →
  l' ≡ₚ l ∧ log `prefix_of` log' ∧ ∀ e, r = Raise e → e = IndexError.
Proof.
  destruct entry as [i item]. rewrite place_unfold.
  destruct (scan i item (seq 0 (length l)) false (l, log)) as [[f|e] [l1 log1]] eqn:Hs;
    apply scan_outcome in Hs as (Hp & -> & He); intros [= <- <- <-].
  - split; [done|]. split; [|done]. destruct f; [done|]. by apply prefix_app_r.
  - split; [done|]. split; [done|]. intros e' [= <-]. by apply He.
Qed.

Lemma reorder_outcome (entries : list (nat * string)) r (l l' : list A) (log log' : Log) :
  for_each entries place (l, log) = (r, (l', log')) →
  l' ≡ₚ l ∧ log `prefix_of` log' ∧ ∀ e, r = Raise e → e = IndexError.
Proof.
  revert l log. induction entries as [|entry rest IH]; intros l log.
  { intros [= <- <- <-]. done. }
  rewrite for_each_cons.
  destruct (place entry (l, log)) as [[[]|e] [l1 log1]] eqn:Hp;
    apply place_outcome in Hp as (Hp1 & Hl1 & He1).
  - intros (Hp2 & Hl2 & He2)%IH. split; [by rewrite Hp2|]. split; [|done].
    by etrans.
  - by intros [= <- <- <-].
Qed.

(** X1. Whatever iteration does, it loses, adds and duplicates no child: the
    list left in the container is a permutation of the list it had, also when
    [IndexError] is raised half way; the list returned is the list left;
    nothing but [IndexError] is ever raised; and the log only grows. *)
Theorem iteration_keeps_the_children (layout_list : option (list string)) r
    (l l' : list A) (log log' : Log) :
  __iter__ name_of repr_of layout_list (l, log) = (r, (l', log')) →
  l' ≡ₚ l
  ∧ log `prefix_of` log'
  ∧ (∀ l1, r = Ok l1 → l1 = l')
  ∧ (∀ e, r = Raise e → e = IndexError).
Proof.
  rewrite iter_unfold, process_unfold.
  destruct layout_list as [layout|].
  2:{ intros [= <- <- <-]. split; [done|]. split; [done|].
      split; [by intros l1 [= <-]|done]. }
  destruct (nonempty layout && nonempty l).
  2:{ intros [= <- <- <-]. split; [done|]. split; [done|].
      split; [by intros l1 [= <-]|done]. }
  destruct (for_each _ _ _) as [[[]|e] [l2 log2]] eqn:Hrun;
    apply reorder_outcome in Hrun as (Hp & Hl & He); intros [= <- <- <-].
  - split; [done|]. split.
    + etrans; [|by apply prefix_app_r]. etrans; [|done]. by apply prefix_app_r.
    + split; [by intros l1 [= <-]|done].
  - split; [done|]. split.
    + etrans; [|done]. by apply prefix_app_r.
    + split; [done|]. intros e' [= <-]. by apply He.
Qed.

(** *** Without a layout *)

Lemma add_components (comps l : list A) (log : Log) :
  for_each comps add_component (l, log) = (Ok tt, (l ++ comps, log)).
Proof.
  revert l. induction comps as [|comp comps IH]; intros l.
  - by rewrite app_nil_r.
  - rewrite for_each_cons. unfold add_component at 1. msimpl. cbn [fst snd].
    by rewrite IH, <- app_assoc.
Qed.

(** X2. In a container with no layout file, or with an empty one, the
    children come out in the order [add_component] received them, after those
    already there, and nothing is logged. *)
Theorem no_layout_keeps_insertion_order (layout_list : option (list string))
    (comps l : list A) (log : Log) :
  layout_list = None ∨ layout_list = Some [] →
  (for_each comps add_component;; __iter__ name_of repr_of layout_list) (l, log)
  = (Ok (l ++ comps), (l ++ comps, log)).
Proof.
  intros Hl. unfold mbind, M_bind. rewrite add_components, iter_unfold, process_unfold.
  by destruct Hl as [-> | ->].
Qed.

(** *** When iteration completes *)

(** X3. Iteration completes exactly when no layout entry at a position that
    is not below the number of children bears the name of a child. *)
Theorem iteration_completes_iff (layout_list : option (list string)) (l : list A)
    (log : Log) :
  (∃ l1 st, __iter__ name_of repr_of layout_list (l, log) = (Ok l1, st))
  ↔ (∀ layout i item c, layout_list = Some layout → layout !! i = Some item →
                        length l ≤ i → c ∈ l → name_of c ≠ item).
Proof.
  split.
  - intros (l1 & st & Hrun) layout i item c -> Hi Hlen Hc Hn.
    rewrite iter_unfold, process_unfold in Hrun.
    replace (nonempty layout) with true in Hrun by (by destruct layout).
    replace (nonempty l) with true in Hrun
      by (destruct l; [by apply elem_of_nil in Hc|done]).
    cbn [andb] in Hrun.
    destruct (reorder_raises name_of (enumerate 0 layout) l (log ++ [reordering]) i item)
      as (st' & Hr); [|done|by eauto|].
    + apply elem_of_enumerate. split; [lia|]. by rewrite Nat.sub_0_r.
    + by rewrite Hr in Hrun.
  - intros Hok. rewrite iter_unfold.
    destruct (process_completes name_of repr_of layout_list l log Hok)
      as (l' & log' & -> & _). eauto.
Qed.

(** *** Children with distinct names *)

Lemma layout_entries_take_their_positions_aux (layout : list string) (l l1 : list A)
    (log : Log) st :
  NoDup (name_of <$> l) → NoDup layout →
  __iter__ name_of repr_of (Some layout) (l, log) = (Ok l1, st) →
  ∀ i item c, layout !! i = Some item → c ∈ l → name_of c = item → l1 !! i = Some c.
Proof.
  intros Hnd Hnl Hrun i item c Hi Hc Hn.
  rewrite iter_unfold, process_unfold in Hrun.
  replace (nonempty layout) with true in Hrun by (by destruct layout).
  replace (nonempty l) with true in Hrun
    by (destruct l; [by apply elem_of_nil in Hc|done]).
  cbn [andb] in Hrun.
  destruct (for_each _ _ _) as [[[]|e] [l' log']] eqn:Hloop; [|done].
  injection Hrun as <- _.
  apply (first_pass name_of layout [] l l') in Hloop as [Hin Hp]; [|done|done|].
  2:{ intros m item' j c' Hm. by rewrite lookup_nil in Hm. }
  rewrite <- Hp in Hc. apply list_elem_of_lookup_1 in Hc as [j Hj].
  by rewrite <- (Hin i item j c Hi Hj Hn).
Qed.

(** X4. With pairwise distinct child names and pairwise distinct layout
    entries, an iteration that completes has put every child that a layout
    entry names at the position of that entry, and the children it returns
    are those it had. *)
Theorem layout_entries_take_their_positions (layout : list string) (l l1 : list A)
    (log : Log) st :
  NoDup (name_of <$> l) → NoDup layout →
  __iter__ name_of repr_of (Some layout) (l, log) = (Ok l1, st) →
  l1 ≡ₚ l
  ∧ ∀ i item c, layout !! i = Some item → c ∈ l → name_of c = item → l1 !! i = Some c.
Proof.
  intros Hnd Hnl Hrun. split.
  - destruct st as [l1' log']. by apply iter_ok_perm in Hrun as [_ Hp].
  - by eapply layout_entries_take_their_positions_aux.
Qed.

(** X5. When the layout lists the name of every child exactly once, the
    children having distinct names, iteration completes and returns the
    children in exactly the order of the layout. *)
Theorem full_layout_gives_its_order (layout : list string) (l : list A) (log : Log) :
  NoDup layout → layout ≡ₚ name_of <$> l →
  ∃ l1 log', __iter__ name_of repr_of (Some layout) (l, log) = (Ok l1, (l1, log'))
             ∧ name_of <$> l1 = layout ∧ l1 ≡ₚ l.
Proof.
  intros Hnl Hperm.
  assert (NoDup (name_of <$> l)) as Hnd by (by rewrite <- Hperm).
  assert (length layout = length l) as Hlen
    by (by rewrite (Permutation_length Hperm), length_fmap).
  destruct (process_completes name_of repr_of (Some layout) l log)
    as (l1 & log' & Hrun & Hp).
  { intros ? i item c [= <-] Hi%lookup_lt_Some. lia. }
  assert (__iter__ name_of repr_of (Some layout) (l, log) = (Ok l1, (l1, log'))) as Hit
    by (by rewrite iter_unfold, Hrun).
  exists l1, log'. split; [done|]. split; [|done].
  apply list_eq. intros i. rewrite list_lookup_fmap.
  destruct (layout !! i) as [item|] eqn:Hi.
  - assert (item ∈ name_of <$> l) as (c & -> & Hc)%list_elem_of_fmap.
    { rewrite <- Hperm. by eapply list_elem_of_lookup_2. }
    by rewrite (layout_entries_take_their_positions_aux layout l l1 log (l1, log')
                  Hnd Hnl Hit i (name_of c) c).
  - apply lookup_ge_None in Hi. rewrite lookup_ge_None_2; [done|].
    rewrite (Permutation_length Hp). lia.
Qed.

(** X6. When the names of the children, pairwise distinct, already start with
    the entries of the layout in order, iteration returns the children as
    they are. *)
Theorem ordered_children_stay (layout : list string) (l : list A) (log : Log) :
  NoDup (name_of <$> l) → layout `prefix_of` (name_of <$> l) →
  ∃ log', __iter__ name_of repr_of (Some layout) (l, log) = (Ok l, (l, log')).
Proof.
  intros Hnd [rest Hpre]. rewrite iter_unfold, process_unfold.
  destruct (nonempty layout && nonempty l); [|by exists log].
  destruct (second_pass name_of (enumerate 0 layout) layout l (log ++ [reordering]))
    as (log' & ->); [done| |..].
  - intros m item j c Hm Hj Hn.
    eapply (NoDup_lookup _ _ _ item Hnd).
    + by rewrite list_lookup_fmap, Hj, <- Hn.
    + rewrite Hpre. by apply lookup_app_l_Some.
  - intros i item [_ Hi]%elem_of_enumerate. by rewrite Nat.sub_0_r in Hi.
  - eauto.
Qed.

(** *** A layout that names no child *)

Lemma reorder_unknown_names (layout : list string) (start : nat) (l : list A) (log : Log) :
  (∀ item c, item ∈ layout → c ∈ l → name_of c ≠ item) →
  for_each (enumerate start layout) place (l, log)
  = (Ok tt, (l, log ++ (not_available <$> layout))).
Proof.
  revert start log. induction layout as [|item layout IH]; intros start log Hno.
  { cbn. by rewrite app_nil_r. }
  cbn [enumerate]. rewrite for_each_cons, place_unmatched.
  - rewrite IH; [|intros item' c Hin; apply Hno; by right].
    by rewrite fmap_cons, <- app_assoc.
  - intros c. apply Hno. by left.
Qed.

(** X7. A layout none of whose entries is the name of a child, however long,
    leaves the children as they are, raises nothing, and logs one advisory
    per entry, in order, between the two records of the reordering. *)
Theorem unknown_layout_changes_nothing (layout : list string) (l : list A) (log : Log) :
  (∀ item c, item ∈ layout → c ∈ l → name_of c ≠ item) →
  layout ≠ [] → l ≠ [] →
  _process_components_per_layout name_of repr_of (Some layout) (l, log)
  = (Ok tt, (l, log ++ [reordering] ++ (not_available <$> layout) ++ [reordered repr_of l])).
Proof.
  intros Hno Hlay Hl. rewrite process_unfold.
  replace (nonempty layout) with true by (by destruct layout).
  replace (nonempty l) with true by (by destruct l).
  cbn [andb]. rewrite reorder_unknown_names by done.
  by rewrite <- !app_assoc.
Qed.

(** *** Reading the children without iterating *)


End LayoutMore.

(** ** More on paths and names *)

Local Open Scope Z_scope.

Lemma rfind_split (s : string) (c : ascii) :
  0 ≤ rfind s c →
  ∃ a b, s = a +:+ String c b ∧ has_char c b = false ∧ rfind s c = len a.
Proof.
  induction s as [|x s IH]; [done|].
  rewrite rfind_cons. pose proof (rfind_bounds s c) as Hb.
  destruct (0 <=? rfind s c) eqn:E.
  - apply Z.leb_le in E. intros _. destruct (IH E) as (a & b & -> & Hb' & Hr).
    exists (String x a), b. split; [done|]. split; [done|].
    rewrite len_cons. lia.
  - apply Z.leb_gt in E. assert (rfind s c = -1) as Hr by lia.
    destruct (Ascii.eqb_spec x c) as [->|Hne]; [|lia]. intros _.
    exists "", s. split; [done|]. split; [|done].
    destruct (has_char c s) eqn:Hs; [|done]. apply rfind_present in Hs. lia.
Qed.

Lemma rfind_app_present (a b : string) (c : ascii) :
  has_char c b = true → len a ≤ rfind (a +:+ b) c.
Proof.
  intros Hb. induction a as [|x a IH].
  - rewrite append_empty_l. change (len "") with 0. by apply rfind_present.
  - rewrite append_cons, rfind_cons, len_cons. pose proof (len_nonneg a).
    destruct (0 <=? rfind (a +:+ b) c) eqn:E; [lia|]. apply Z.leb_gt in E. lia.
Qed.

Lemma skip_leading_dots_cases (p : string) (k : Z) (n : nat) (d : Z) :
  skip_leading_dots p k n d = (p, "")
  ∨ skip_leading_dots p k n d = (slice_to p d, slice_from p d).
Proof.
  revert k. induction n as [|n IH]; intros k; cbn [skip_leading_dots]; [by left|].
  destruct (negb _); [by right|]. apply IH.
Qed.

(** [splitext] cuts its argument in two, and what it cuts off is empty or a
    dot followed by neither a dot nor a separator. *)
Lemma splitext_parts (p : string) :
  (splitext p).1 +:+ (splitext p).2 = p
  ∧ ((splitext p).2 = ""
     ∨ ∃ e, (splitext p).2 = String extsep e
            ∧ has_char extsep e = false ∧ has_char sep e = false).
Proof.
  unfold splitext.
  destruct (rfind p sep <? rfind p extsep) eqn:E.
  2:{ cbn. rewrite append_empty_r. auto. }
  apply Z.ltb_lt in E. pose proof (rfind_bounds p sep) as Hb.
  destruct (rfind_split p extsep) as (a & b & Hp & Hdot & Hr); [lia|].
  destruct (skip_leading_dots_cases p (rfind p sep + 1)
              (Z.to_nat (rfind p extsep - (rfind p sep + 1))) (rfind p extsep))
    as [-> | ->].
  { cbn. rewrite append_empty_r. auto. }
  cbn [fst snd]. split.
  { unfold slice_to, slice_from. apply str_take_drop. }
  right. exists b. rewrite Hr. rewrite Hp at 1. rewrite slice_from_app.
  split; [done|]. split; [done|].
  destruct (has_char sep b) eqn:Hs; [|done]. exfalso.
  assert (len (a +:+ String extsep "") ≤ rfind ((a +:+ String extsep "") +:+ b) sep) as Hle
    by (by apply rfind_app_present).
  rewrite append_assoc in Hle. change (String extsep "" +:+ b) with (String extsep b) in Hle.
  rewrite <- Hp, len_append in Hle. change (len (String extsep "")) with 1 in Hle. lia.
Qed.

Lemma has_char_app_false (c : ascii) (a b : string) :
  has_char c (a +:+ b) = false → has_char c a = false ∧ has_char c b = false.
Proof. rewrite has_char_app. by intros ?%orb_false_iff. Qed.

Section NameFacts.
Context `{Host}.

(** X12. The name derived from a directory, completed by what [splitext] cut
    off, is the final segment of the directory; what is cut off is empty or
    one extension, a dot followed by no dot; and the name never holds a path
    separator.  It is the same for a container and for a command. *)
Theorem name_and_extension_make_the_final_segment (directory : string) :
  GenericCommand._get_name directory = GenericContainer._get_name directory
  ∧ has_char sep (GenericContainer._get_name directory) = false
  ∧ ∃ ext, final_segment directory = GenericContainer._get_name directory +:+ ext
           ∧ (ext = "" ∨ ∃ e, ext = String extsep e ∧ has_char extsep e = false).
Proof.
  split; [done|]. unfold GenericContainer._get_name.
  destruct (splitext_parts (basename directory)) as [Hcat Hext].
  split.
  - pose proof (basename_has_no_sep directory) as Hns. rewrite <- Hcat in Hns.
    by apply has_char_app_false in Hns as [? _].
  - exists (splitext (basename directory)).2.
    rewrite final_segment_basename. split; [done|].
    destruct Hext as [?|(e & ? & ? & _)]; eauto.
Qed.

(** X13. Validation looks at the whole directory string, and for a suffix
    that holds no separator this is the same as looking at the final
    segment: the directory is valid exactly when its final segment ends with
    the suffix.  A trailing separator therefore makes a directory invalid for
    every class that has a suffix. *)
Theorem validity_is_about_the_final_segment (suffix directory : string) :
  has_char sep suffix = false →
  (endswith directory suffix = endswith (final_segment directory) suffix)
  ∧ (suffix ≠ "" → endswith (directory +:+ String sep "") suffix = false).
Proof.
  intros Hs. rewrite final_segment_basename. split.
  - destruct (endswith directory suffix) eqn:Hd.
    + apply endswith_spec in Hd as [p ->]. symmetry. apply endswith_spec.
      exists (basename p). by apply basename_app.
    + symmetry. apply endswith_false. intros [q Hq].
      apply endswith_false in Hd. apply Hd.
      exists (slice_to directory (rfind directory sep + 1) +:+ q).
      rewrite append_assoc, <- Hq. unfold basename, slice_to, slice_from.
      by rewrite str_take_drop.
  - intros Hne. apply endswith_false. intros [p Hp].
    assert (has_char sep (basename (directory +:+ String sep ""))  = false) as Hb
      by apply basename_has_no_sep.
    assert (basename (p +:+ suffix) = basename p +:+ suffix) as Hbs by (by apply basename_app).
    rewrite <- Hp in Hbs.
    assert (basename (directory +:+ String sep "") = "") as He.
    { unfold basename. rewrite (rfind_last directory "" sep eq_refl).
      replace (len directory + 1) with (len (directory +:+ String sep ""))
        by (rewrite len_append; done).
      rewrite <- (append_empty_r (directory +:+ String sep "")) at 1.
      apply slice_from_app. }
    rewrite He in Hbs. destruct (basename p), suffix; done.
Qed.

End NameFacts.

(** *** Segments *)

Lemma split_nonempty (s : string) : split s sep ≠ [].
Proof.
  destruct s as [|a s]; [done|]. simpl.
  destruct (Ascii.eqb a sep); [done|]. by destruct (split s sep).
Qed.

Lemma split_cons_not_sep (a : ascii) (s : string) :
  Ascii.eqb a sep = false →
  ∃ h t, split s sep = h :: t ∧ split (String a s) sep = String a h :: t.
Proof.
  intros Ha. simpl. rewrite Ha.
  destruct (split s sep) as [|h t] eqn:Hs; [by apply split_nonempty in Hs|]. eauto.
Qed.

(** [(p + sep + q).split(sep)] is [p.split(sep) + q.split(sep)]. *)
Lemma split_app (p q : string) :
  split (p +:+ String sep q) sep = split p sep ++ split q sep.
Proof.
  induction p as [|a p IH].
  - by rewrite append_empty_l.
  - rewrite append_cons. destruct (Ascii.eqb a sep) eqn:Ha.
    + simpl. by rewrite Ha, IH.
    + destruct (split_cons_not_sep a p Ha) as (h & t & Hs & ->).
      destruct (split_cons_not_sep a (p +:+ String sep q) Ha) as (h' & t' & Hs' & ->).
      rewrite IH, Hs in Hs'. by injection Hs' as <- <-.
Qed.

(** X14. The segments that [_get_unique_name] goes through hold no
    separator, there is at least one, and joined by the separator they give
    the directory back. *)
Theorem segments_rebuild_the_directory (directory : string) :
  str_join sep (split directory sep) = directory
  ∧ split directory sep ≠ []
  ∧ ∀ segment, segment ∈ split directory sep → has_char sep segment = false.
Proof.
  split; [|split; [apply split_nonempty|]].
  - induction directory as [|a s IH]; [done|].
    destruct (Ascii.eqb_spec a sep) as [->|Hne].
    + change (split (String sep s) sep) with ("" :: split s sep). cbn [str_join].
      destruct (split s sep) as [|h t] eqn:Hs; [by apply split_nonempty in Hs|].
      rewrite <- Hs in *. cbn [str_join] in IH. by rewrite IH.
    + apply Ascii.eqb_neq in Hne.
      destruct (split_cons_not_sep a s Hne) as (h & t & Hs & ->).
      rewrite Hs in IH. cbn [str_join] in *.
      destruct t as [|h' t]; [by rewrite IH|].
      rewrite append_cons. by rewrite IH.
  - induction directory as [|a s IH]; intros segment.
    + by intros ->%list_elem_of_singleton.
    + destruct (Ascii.eqb a sep) eqn:Ha.
      * simpl. rewrite Ha. intros [->|?]%elem_of_cons; [done|by apply IH].
      * destruct (split_cons_not_sep a s Ha) as (h & t & Hs & ->).
        rewrite Hs in IH.
        intros [->|?]%elem_of_cons; [|apply IH; by right].
        simpl. rewrite Ha. apply IH. by left.
Qed.

Local Close Scope Z_scope.

(** ** More on unique names *)

Lemma splitext_no_dot (s : string) : has_char extsep s = false → splitext s = (s, "").
Proof.
  intros Hs. unfold splitext. rewrite (rfind_absent s extsep Hs).
  pose proof (rfind_bounds s sep).
  destruct (Z.ltb_spec (rfind s sep) (-1)) as [Hlt|_]; [lia|done].
Qed.

Lemma str_concat_app (xs ys : list string) :
  str_concat (xs ++ ys) = str_concat xs +:+ str_concat ys.
Proof.
  induction xs as [|x xs IH]; [done|].
  change (str_concat ((x :: xs) ++ ys)) with (x +:+ str_concat (xs ++ ys)).
  change (str_concat (x :: xs)) with (x +:+ str_concat xs).
  by rewrite IH, append_assoc.
Qed.

(** What [_get_unique_name] hands to [cleanup_string]. *)
Lemma unique_name_loop_stems (dnames : list string) :
  GenericContainer._get_unique_name_loop "" dnames =
    str_concat ((λ segment, (splitext segment).1)
                  <$> filter (λ segment, (splitext segment).2 ≠ "") dnames).
Proof. by rewrite container_unique_name_loop, append_empty_l. Qed.

Section UniqueNameFacts.
Context `{Host}.

(** X10. The unique name grows along the tree: for a child folder made of a
    stem and an extension, what is sanitized is what is sanitized for the
    parent directory, followed by the stem.  The extension plays no part, so
    two children of one parent that differ by their extension only get the
    same unique name. *)
Theorem unique_name_of_a_child (parent stem ext : string) :
  has_char sep stem = false → only_dots stem = false →
  has_char sep ext = false → has_char extsep ext = false →
  ∃ u, GenericContainer._get_unique_name parent = cleanup_string u
       ∧ GenericContainer._get_unique_name (parent +:+ String sep (stem +:+ String extsep ext))
         = cleanup_string (u +:+ stem)
       ∧ GenericCommand._get_unique_name (parent +:+ String sep (stem +:+ String extsep ext))
         = cleanup_string (u +:+ stem)
       ∧ ∀ ext', has_char sep ext' = false → has_char extsep ext' = false →
           GenericContainer._get_unique_name
             (parent +:+ String sep (stem +:+ String extsep ext'))
           = GenericContainer._get_unique_name
               (parent +:+ String sep (stem +:+ String extsep ext)).
Proof.
  intros Hs Hd Hes Hed.
  assert (∀ e, has_char sep e = false → has_char extsep e = false →
            GenericContainer._get_unique_name (parent +:+ String sep (stem +:+ String extsep e))
            = cleanup_string (GenericContainer._get_unique_name_loop "" (split parent sep)
                                +:+ stem)) as Hchild.
  { intros e Hes' Hed'. unfold GenericContainer._get_unique_name. cbv zeta. f_equal.
    rewrite split_app, (split_no_sep (stem +:+ String extsep e))
      by (by rewrite has_char_app, Hs, append_dot_no_sep).
    rewrite !unique_name_loop_stems, filter_app, fmap_app, str_concat_app. f_equal.
    rewrite filter_cons, filter_nil.
    rewrite (splitext_segment stem e Hs Hes' Hed'), Hd. cbn [snd].
    rewrite decide_True by done. cbn [fmap list_fmap str_concat foldr].
    by rewrite (splitext_segment stem e Hs Hes' Hed'), Hd, append_empty_r. }
  exists (GenericContainer._get_unique_name_loop "" (split parent sep)).
  split; [done|]. split; [by apply Hchild|]. split; [by apply Hchild|].
  intros e Hes' Hed'. by rewrite !Hchild.
Qed.

(** X11. A folder whose name has no dot, hence no extension, leaves no trace
    in the unique name, wherever it stands in the path: a plain folder between
    components, a plain last folder, and the empty segment of a doubled or
    leading separator. *)
Theorem unique_name_skips_plain_folders (before folder after : string) :
  has_char sep folder = false → has_char extsep folder = false →
  GenericContainer._get_unique_name (before +:+ String sep (folder +:+ String sep after))
  = GenericContainer._get_unique_name (before +:+ String sep after)
  ∧ GenericContainer._get_unique_name (before +:+ String sep folder)
    = GenericContainer._get_unique_name before
  ∧ GenericCommand._get_unique_name (before +:+ String sep (folder +:+ String sep after))
    = GenericCommand._get_unique_name (before +:+ String sep after).
Proof.
  intros Hs Hd.
  assert (filter (λ segment, (splitext segment).2 ≠ "") [folder] = []) as Hf.
  { rewrite filter_cons, filter_nil, (splitext_no_dot folder Hd). cbn [snd].
    by rewrite decide_False by (intros Hn; by apply Hn). }
  assert (GenericContainer._get_unique_name
            (before +:+ String sep (folder +:+ String sep after))
          = GenericContainer._get_unique_name (before +:+ String sep after)) as Hmid.
  { unfold GenericContainer._get_unique_name. cbv zeta. f_equal.
    rewrite !split_app, (split_no_sep folder Hs), !unique_name_loop_stems.
    by rewrite !filter_app, Hf. }
  split; [exact Hmid|]. split; [|exact Hmid].
  unfold GenericContainer._get_unique_name. cbv zeta. f_equal.
  rewrite split_app, (split_no_sep folder Hs), !unique_name_loop_stems.
  by rewrite filter_app, Hf, app_nil_r.
Qed.

End UniqueNameFacts.

(** ** More on construction *)

Lemma remove_char_absent (c : ascii) (s : string) : has_char c (remove_char c s) = false.
Proof.
  induction s as [|a s IH]; [done|]. simpl.
  destruct (Ascii.eqb a c) eqn:Ha; [done|]. simpl. by rewrite Ha, IH.
Qed.

Lemma remove_char_id (c : ascii) (s : string) :
  has_char c s = false → remove_char c s = s.
Proof.
  induction s as [|a s IH]; [done|]. simpl.
  intros [-> Hs]%orb_false_iff. by rewrite IH.
Qed.

Lemma remove_char_last (c : ascii) (s : string) :
  has_char c s = false → remove_char c (s +:+ String c "") = s.
Proof.
  induction s as [|a s IH].
  - intros _. rewrite append_empty_l. simpl. by rewrite Ascii.eqb_refl.
  - intros Hh. rewrite append_cons. simpl in Hh.
    apply orb_false_iff in Hh as [Ha Hs]. cbn [remove_char]. by rewrite Ha, IH.
Qed.

Section ConstructionFacts.
Context `{Host}.

(** The attributes of a constructed container. *)
Lemma container_init_attrs (c : GenericContainer.cls) (d : string) (log log' : Log) self :
  GenericContainer.__init__ c d log = (Ok self, log') →
  GenericContainer.directory self = d
  ∧ GenericContainer.layout_list self =
      (if truthy (GenericContainer._verify_file d DEFAULT_LAYOUT_FILE_NAME)
       then match readlines (join d DEFAULT_LAYOUT_FILE_NAME) with
            | Some lines => Some (remove_char LF <$> lines)
            | None => None
            end
       else None)
  ∧ GenericContainer.icon_file self = GenericContainer._verify_file d DEFAULT_ICON_FILE
  ∧ log `prefix_of` log'.
Proof.
  unfold GenericContainer.__init__, GenericContainer._read_layout_file.
  destruct (GenericContainer._is_valid_dir c d); [|done]. cbn [negb].
  destruct (truthy (GenericContainer._verify_file d DEFAULT_LAYOUT_FILE_NAME));
    [destruct (readlines (join d DEFAULT_LAYOUT_FILE_NAME))|]; msimpl;
    repeat match goal with
           | |- context [if ?b then _ else _] => destruct b
           end; cbn; intros [= <- <-]; cbn;
    repeat split; rewrite <- ?app_assoc; by apply prefix_app_r.
Qed.

(** X8. What a container built on a valid directory takes from the layout
    file.  With no layout file the container is built and its layout is
    [None], which is not an error.  With a layout file that can be read the
    container is built and its layout has one entry per line, in order, no
    entry holding a line feed; a line made of a name and a line feed, or of
    the name alone, gives that name.  With a layout file that exists and
    cannot be read, no container is built: the constructor raises the
    [IOError] of the read. *)
Theorem layout_entries_are_the_lines (c : GenericContainer.cls) (d : string) (log : Log) :
  GenericContainer._is_valid_dir c d = true →
  if truthy (GenericContainer._verify_file d DEFAULT_LAYOUT_FILE_NAME)
  then match readlines (join d DEFAULT_LAYOUT_FILE_NAME) with
       | Some lines =>
           ∃ self log' layout,
             GenericContainer.__init__ c d log = (Ok self, log')
             ∧ GenericContainer.layout_list self = Some layout
             ∧ length layout = length lines
             ∧ (∀ item, item ∈ layout → has_char LF item = false)
             ∧ (∀ i name, has_char LF name = false →
                  lines !! i = Some (name +:+ String LF "") ∨ lines !! i = Some name →
                  layout !! i = Some name)
       | None => ∃ log', GenericContainer.__init__ c d log = (Raise IOError, log')
       end
  else ∃ self log', GenericContainer.__init__ c d log = (Ok self, log')
         ∧ GenericContainer.layout_list self = None.
Proof.
  intros Hv. pose proof (container_init_valid c d log Hv) as Hc.
  unfold layout_readable in Hc.
  destruct (truthy (GenericContainer._verify_file d DEFAULT_LAYOUT_FILE_NAME)) eqn:Ht;
    [destruct (readlines (join d DEFAULT_LAYOUT_FILE_NAME)) as [lines|] eqn:Hl|].
  - destruct Hc as (self & log' & Hi & _).
    destruct (container_init_attrs c d log log' self Hi) as (_ & Hlay & _).
    rewrite Ht, Hl in Hlay. exists self, log', (remove_char LF <$> lines).
    split; [done|]. split; [done|]. split; [by rewrite length_fmap|]. split.
    + intros item (line & -> & _)%list_elem_of_fmap. apply remove_char_absent.
    + intros i name Hn Hline. rewrite list_lookup_fmap.
      destruct Hline as [-> | ->]; cbn.
      * by rewrite remove_char_last.
      * by rewrite remove_char_id.
  - done.
  - destruct Hc as (self & log' & Hi & _).
    destruct (container_init_attrs c d log log' self Hi) as (_ & Hlay & _).
    rewrite Ht in Hlay. by exists self, log'.
Qed.

(** The attributes of a constructed command. *)
Lemma command_init_inv (c : GenericCommand.cls) (d : string) (log log' : Log) self :
  GenericCommand.__init__ c d log = (Ok self, log') →
  GenericCommand._is_valid_dir c d = true
  ∧ GenericCommand.class self = c
  ∧ GenericCommand.directory self = d
  ∧ GenericCommand.icon_file self = GenericCommand._verify_file d DEFAULT_ICON_FILE
  ∧ GenericCommand.library_path self = GenericCommand._get_library d
  ∧ GenericCommand.search_paths self = [GenericCommand._get_library d]
  ∧ GenericCommand.icon_on_file self =
      match c with
      | GenericCommand.ToggleButton =>
          Attr (GenericCommand._verify_file d DEFAULT_ON_ICON_FILE)
      | _ => Unset
      end
  ∧ GenericCommand.icon_off_file self =
      match c with
      | GenericCommand.ToggleButton =>
          Attr (GenericCommand._verify_file d DEFAULT_OFF_ICON_FILE)
      | _ => Unset
      end.
Proof.
  unfold GenericCommand.__init__, GenericCommand._check_dependencies.
  destruct (GenericCommand._is_valid_dir c d); [|done]. cbn [negb].
  destruct (GenericCommand._verify_file d DEFAULT_SCRIPT_FILE) as [script|] eqn:Hs.
  - destruct (ScriptFileContents _) as [script_content|].
    + msimpl. destruct (negb _); intros [= <- _]; cbn; by destruct c.
    + msimpl. by destruct (negb _).
  - msimpl. by destruct (negb _).
Qed.

(** X9. Icons are optional: on a valid directory whose script file exists
    and can be read, a command is built whatever icon files exist, its
    [icon_file] being [None] when the icon is missing.  A toggle button has
    the attributes [icon_on_file] and [icon_off_file], each [None] when its
    file is missing; a command of another class has neither attribute, and
    reading one raises [AttributeError]. *)
Theorem command_icons_are_optional (c : GenericCommand.cls) (d : string) (log : Log) :
  GenericCommand._is_valid_dir c d = true →
  exists_path (join d DEFAULT_SCRIPT_FILE) = true →
  script_readable d = true →
  ∃ self log', GenericCommand.__init__ c d log = (Ok self, log')
    ∧ GenericCommand.icon_file self =
        (if exists_path (join d DEFAULT_ICON_FILE) then Some DEFAULT_ICON_FILE else None)
    ∧ getattr (GenericCommand.icon_on_file self) =
        match c with
        | GenericCommand.ToggleButton =>
            Ok (if exists_path (join d DEFAULT_ON_ICON_FILE) then Some DEFAULT_ON_ICON_FILE
                else None)
        | _ => Raise AttributeError
        end
    ∧ getattr (GenericCommand.icon_off_file self) =
        match c with
        | GenericCommand.ToggleButton =>
            Ok (if exists_path (join d DEFAULT_OFF_ICON_FILE) then Some DEFAULT_OFF_ICON_FILE
                else None)
        | _ => Raise AttributeError
        end.
Proof.
  intros Hv Hs Hr. pose proof (command_init_valid c d log Hv) as Hc. rewrite Hs, Hr in Hc.
  destruct Hc as (self & log' & Hi & _).
  destruct (command_init_inv c d log log' self Hi) as (_ & _ & _ & Hicon & _ & _ & Hon & Hoff).
  exists self, log'. split; [done|]. rewrite Hicon, Hon, Hoff. by destruct c.
Qed.

(** X16. The search paths of a constructed command are its library path,
    [directory/Lib], followed by the paths appended since, in the order of
    the calls; appending changes no other attribute read here. *)
Theorem search_paths_start_with_the_library (c : GenericCommand.cls) (d : string)
    (log log' : Log) self (paths : list string) :
  GenericCommand.__init__ c d log = (Ok self, log') →
  let self' := foldl (λ s path, GenericCommand.append_search_path path s) self paths in
  GenericCommand.get_search_paths self' = join d COMPONENT_LIB_NAME :: paths
  ∧ GenericCommand.library_path self' = join d COMPONENT_LIB_NAME
  ∧ GenericCommand.directory self' = d
  ∧ GenericCommand.script_file self' = GenericCommand.script_file self.
Proof.
  intros Hi. destruct (command_init_inv c d log log' self Hi)
    as (_ & _ & Hd & _ & Hlib & Hsp & _).
  assert (∀ paths s,
            let s' := foldl (λ s path, GenericCommand.append_search_path path s) s paths in
            GenericCommand.search_paths s' = GenericCommand.search_paths s ++ paths
            ∧ GenericCommand.library_path s' = GenericCommand.library_path s
            ∧ GenericCommand.directory s' = GenericCommand.directory s
            ∧ GenericCommand.script_file s' = GenericCommand.script_file s) as Hfold.
  { clear. induction paths as [|path paths IH]; intros s; cbn.
    - by rewrite app_nil_r.
    - destruct (IH (GenericCommand.append_search_path path s)) as (-> & -> & -> & ->).
      cbn. by rewrite <- app_assoc. }
  cbv zeta. destruct (Hfold paths self) as (Hp & Hl & Hdir & Hscr).
  unfold GenericCommand.get_search_paths. rewrite Hp, Hl, Hdir, Hsp, Hlib, Hd. done.
Qed.

End ConstructionFacts.

(** ** More on [has_commands] *)

Section TabMore.
Context `{Host}.

Lemma first_has_commands_decided (before after : list Component) (child : Component)
    (r : result bool) :
  (∀ c, c ∈ before → has_commands c = Ok false) →
  has_commands child = r → r ≠ Ok false →
  first_has_commands
    ((λ panel, (panel, has_commands panel)) <$> (before ++ child :: after)) = r.
Proof.
  intros Hb Hc Hr. induction before as [|c before IH].
  - cbn. rewrite Hc. by destruct r as [[]|e].
  - cbn. rewrite (Hb c) by left. apply IH. intros c' ?. apply Hb. by right.
Qed.

Lemma first_has_commands_none (subs : list Component) :
  (∀ c, c ∈ subs → has_commands c = Ok false) →
  first_has_commands ((λ panel, (panel, has_commands panel)) <$> subs) = Ok false.
Proof.
  induction subs as [|c subs IH]; intros Hs; [done|].
  cbn. rewrite (Hs c) by left. apply IH. intros c' ?. apply Hs. by right.
Qed.

(** X15. In a tab with no layout, [has_commands] asks the children in the
    order they were added and stops at the first one that does not answer
    [False]: it returns, or raises, what that child does, and the children
    after it are not asked.  A child that is neither a tab nor a panel has no
    [has_commands] and makes the call raise [AttributeError]; when every
    child answers [False] the tab answers [False]. *)
Theorem tab_stops_at_the_first_answer (self : GenericContainer.attrs)
    (before after : list Component) (child : Component) :
  GenericContainer.class self = GenericContainer.Tab →
  GenericContainer.layout_list self = None ∨ GenericContainer.layout_list self = Some [] →
  (∀ c, c ∈ before → has_commands c = Ok false) →
  (has_commands child ≠ Ok false →
   Tab_has_commands self (before ++ child :: after) = has_commands child)
  ∧ (∀ cmd, child = CommandObj cmd →
       Tab_has_commands self (before ++ child :: after) = Raise AttributeError)
  ∧ Tab_has_commands self before = Ok false.
Proof.
  intros Htab Hl Hb.
  assert (∀ subs, Tab_has_commands self subs
                  = first_has_commands ((λ panel, (panel, has_commands panel)) <$> subs))
    as Hrun.
  { intros subs. unfold Tab_has_commands.
    rewrite has_commands_unfold, Htab, iter_unfold, process_unfold.
    by destruct Hl as [-> | ->]. }
  split; [|split].
  - intros Hr. rewrite Hrun. by apply first_has_commands_decided.
  - intros cmd ->. rewrite Hrun. by apply first_has_commands_decided.
  - rewrite Hrun. by apply first_has_commands_none.
Qed.

End TabMore.

(** ** The further properties on concrete containers *)

Lemma iteration_keeps_the_children_witness :
  [panel_B; panel_A] ≡ₚ [panel_A; panel_B]
  ∧ [] `prefix_of` [reordering; not_available "C"]
  ∧ (∀ l1, Raise IndexError = Ok l1 → l1 = [panel_B; panel_A])
  ∧ (∀ e, @Raise (list Component) IndexError = Raise e → e = IndexError).
Proof.
  apply (iteration_keeps_the_children component_name (component_repr (H := sample_host))
           (Some ["B"; "C"; "A"]) (Raise IndexError) [panel_A; panel_B] [panel_B; panel_A]
           [] [reordering; not_available "C"]).
  vm_compute. reflexivity.
Defined.

Lemma no_layout_keeps_insertion_order_witness :
  (for_each [panel_A; panel_B] add_component;;
   __iter__ component_name (component_repr (H := sample_host)) None) ([panel_C], [])
  = (Ok ([panel_C] ++ [panel_A; panel_B]), ([panel_C] ++ [panel_A; panel_B], [])).
Proof.
  apply (no_layout_keeps_insertion_order component_name (component_repr (H := sample_host))
           None [panel_A; panel_B] [panel_C] []).
  left. reflexivity.
Defined.

Lemma layout_entries_take_their_positions_witness :
  [panel_B; panel_A; panel_C] ≡ₚ [panel_A; panel_C; panel_B]
  ∧ ∀ i item c, ["B"; "A"] !! i = Some item → c ∈ [panel_A; panel_C; panel_B] →
                component_name c = item → [panel_B; panel_A; panel_C] !! i = Some c.
Proof.
  apply (layout_entries_take_their_positions component_name
           (component_repr (H := sample_host)) ["B"; "A"] [panel_A; panel_C; panel_B]
           [panel_B; panel_A; panel_C] []
           ([panel_B; panel_A; panel_C],
            [reordering; reordered (component_repr (H := sample_host))
                           [panel_B; panel_A; panel_C]])).
  - apply (bool_decide_unpack _). vm_compute. exact I.
  - apply (bool_decide_unpack _). vm_compute. exact I.
  - vm_compute. reflexivity.
Defined.

Lemma full_layout_gives_its_order_witness :
  ∃ l1 log', __iter__ component_name (component_repr (H := sample_host))
               (Some ["C"; "A"; "B"]) ([panel_A; panel_B; panel_C], [])
             = (Ok l1, (l1, log'))
             ∧ component_name <$> l1 = ["C"; "A"; "B"]
             ∧ l1 ≡ₚ [panel_A; panel_B; panel_C].
Proof.
  apply (full_layout_gives_its_order component_name (component_repr (H := sample_host))
           ["C"; "A"; "B"] [panel_A; panel_B; panel_C] []).
  - apply (bool_decide_unpack _). vm_compute. exact I.
  - apply (bool_decide_unpack _). vm_compute. exact I.
Defined.

Lemma ordered_children_stay_witness :
  ∃ log', __iter__ component_name (component_repr (H := sample_host)) (Some ["A"; "B"])
            ([panel_A; panel_B; panel_C], [])
          = (Ok [panel_A; panel_B; panel_C], ([panel_A; panel_B; panel_C], log')).
Proof.
  apply (ordered_children_stay component_name (component_repr (H := sample_host))
           ["A"; "B"] [panel_A; panel_B; panel_C] []).
  - apply (bool_decide_unpack _). vm_compute. exact I.
  - exists ["C"]. reflexivity.
Defined.

Lemma unknown_layout_changes_nothing_witness :
  _process_components_per_layout component_name (component_repr (H := sample_host))
    (Some ["X"; "Y"; "Z"]) ([panel_A; panel_B], [])
  = (Ok tt, ([panel_A; panel_B],
             [] ++ [reordering] ++ (not_available <$> ["X"; "Y"; "Z"])
                ++ [reordered (component_repr (H := sample_host)) [panel_A; panel_B]])).
Proof.
  apply (unknown_layout_changes_nothing component_name (component_repr (H := sample_host))
           ["X"; "Y"; "Z"] [panel_A; panel_B] []); [|done|done].
  intros item c Hitem [->|[->|[]%elem_of_nil]%elem_of_cons]%elem_of_cons;
    apply elem_of_cons in Hitem as [->|Hitem]; try (vm_compute; discriminate);
    apply elem_of_cons in Hitem as [->|Hitem]; try (vm_compute; discriminate);
    apply list_elem_of_singleton in Hitem as ->; vm_compute; discriminate.
Defined.

Lemma layout_entries_are_the_lines_witness :
  (∃ self log',
     GenericContainer.__init__
       (H := sample_host_with ["/pyRevit.package/pyRevit.tab/_layout"]
               (Some ["B" +:+ String LF ""; "A"]))
       GenericContainer.Tab "/pyRevit.package/pyRevit.tab" [] = (Ok self, log')
     ∧ GenericContainer.layout_list self = Some ["B"; "A"])
  ∧ (∃ log',
       GenericContainer.__init__
         (H := sample_host_with ["/pyRevit.package/pyRevit.tab/_layout"] None)
         GenericContainer.Tab "/pyRevit.package/pyRevit.tab" [] = (Raise IOError, log')).
Proof.
  split.
  - assert (GenericContainer._is_valid_dir
              (H := sample_host_with ["/pyRevit.package/pyRevit.tab/_layout"]
                      (Some ["B" +:+ String LF ""; "A"]))
              GenericContainer.Tab "/pyRevit.package/pyRevit.tab" = true) as Hv
      by (vm_compute; reflexivity).
    pose proof (layout_entries_are_the_lines GenericContainer.Tab
                  "/pyRevit.package/pyRevit.tab" [] Hv) as Hx.
    cbn in Hx. destruct Hx as (self & log' & layout & Hinit & Hlayout & Hlen & _ & Hlines).
    exists self, log'. split; [exact Hinit|]. rewrite Hlayout. f_equal.
    pose proof (Hlines 0%nat "B" eq_refl (or_introl eq_refl)) as H0.
    pose proof (Hlines 1%nat "A" eq_refl (or_intror eq_refl)) as H1.
    destruct layout as [|x [|y [|z layout]]]; try discriminate Hlen.
    injection H0 as ->. injection H1 as ->. reflexivity.
  - assert (GenericContainer._is_valid_dir
              (H := sample_host_with ["/pyRevit.package/pyRevit.tab/_layout"] None)
              GenericContainer.Tab "/pyRevit.package/pyRevit.tab" = true) as Hv
      by (vm_compute; reflexivity).
    pose proof (layout_entries_are_the_lines GenericContainer.Tab
                  "/pyRevit.package/pyRevit.tab" [] Hv) as Hx.
    cbn in Hx. exact Hx.
Defined.

Lemma command_icons_are_optional_witness :
  (∃ self log',
     GenericCommand.__init__
       (H := sample_host_with
               ["/pyRevit.package/pyRevit.tab/Edit.panel/Grid.toggle/script.py";
                "/pyRevit.package/pyRevit.tab/Edit.panel/Grid.toggle/on.png"] (Some []))
       GenericCommand.ToggleButton "/pyRevit.package/pyRevit.tab/Edit.panel/Grid.toggle" []
     = (Ok self, log')
     ∧ GenericCommand.icon_file self = None
     ∧ getattr (GenericCommand.icon_on_file self) = Ok (Some "on.png")
     ∧ getattr (GenericCommand.icon_off_file self) = Ok None)
  ∧ (∃ self log',
       GenericCommand.__init__ (H := sample_host) GenericCommand.PushButton
         "/pyRevit.package/pyRevit.tab/Edit.panel/Flip doors.pushbutton" []
       = (Ok self, log')
       ∧ GenericCommand.icon_file self = None
       ∧ getattr (GenericCommand.icon_on_file self) = Raise AttributeError
       ∧ getattr (GenericCommand.icon_off_file self) = Raise AttributeError).
Proof.
  split.
  - apply (command_icons_are_optional
             (H := sample_host_with
                     ["/pyRevit.package/pyRevit.tab/Edit.panel/Grid.toggle/script.py";
                      "/pyRevit.package/pyRevit.tab/Edit.panel/Grid.toggle/on.png"] (Some []))
             GenericCommand.ToggleButton
             "/pyRevit.package/pyRevit.tab/Edit.panel/Grid.toggle" []).
    + vm_compute. reflexivity.
    + vm_compute. reflexivity.
    + vm_compute. reflexivity.
  - apply (command_icons_are_optional (H := sample_host) GenericCommand.PushButton
             "/pyRevit.package/pyRevit.tab/Edit.panel/Flip doors.pushbutton" []).
    + vm_compute. reflexivity.
    + vm_compute. reflexivity.
    + vm_compute. reflexivity.
Defined.

Lemma unique_name_of_a_child_witness :
  ∃ u, GenericContainer._get_unique_name (H := sample_host) "/pyRevit.package/pyRevit.tab"
       = cleanup_string (Host := sample_host) u
       ∧ GenericContainer._get_unique_name (H := sample_host)
           ("/pyRevit.package/pyRevit.tab" +:+ String sep ("Edit" +:+ String extsep "panel"))
         = cleanup_string (Host := sample_host) (u +:+ "Edit")
       ∧ GenericCommand._get_unique_name (H := sample_host)
           ("/pyRevit.package/pyRevit.tab" +:+ String sep ("Edit" +:+ String extsep "panel"))
         = cleanup_string (Host := sample_host) (u +:+ "Edit")
       ∧ ∀ ext', has_char sep ext' = false → has_char extsep ext' = false →
           GenericContainer._get_unique_name (H := sample_host)
             ("/pyRevit.package/pyRevit.tab" +:+ String sep ("Edit" +:+ String extsep ext'))
           = GenericContainer._get_unique_name (H := sample_host)
               ("/pyRevit.package/pyRevit.tab"
                  +:+ String sep ("Edit" +:+ String extsep "panel")).
Proof.
  apply (unique_name_of_a_child (H := sample_host) "/pyRevit.package/pyRevit.tab"
           "Edit" "panel"); reflexivity.
Defined.

Lemma unique_name_skips_plain_folders_witness :
  GenericContainer._get_unique_name (H := sample_host)
    ("/pyRevit.package" +:+ String sep ("docs" +:+ String sep "pyRevit.tab"))
  = GenericContainer._get_unique_name (H := sample_host)
      ("/pyRevit.package" +:+ String sep "pyRevit.tab")
  ∧ GenericContainer._get_unique_name (H := sample_host)
      ("/pyRevit.package" +:+ String sep "docs")
    = GenericContainer._get_unique_name (H := sample_host) "/pyRevit.package"
  ∧ GenericCommand._get_unique_name (H := sample_host)
      ("/pyRevit.package" +:+ String sep ("docs" +:+ String sep "pyRevit.tab"))
    = GenericCommand._get_unique_name (H := sample_host)
        ("/pyRevit.package" +:+ String sep "pyRevit.tab").
Proof.
  apply (unique_name_skips_plain_folders (H := sample_host)
           "/pyRevit.package" "docs" "pyRevit.tab"); reflexivity.
Defined.

Lemma validity_is_about_the_final_segment_witness :
  (endswith "/pyRevit.tab/Edit.panel" ".panel"
   = endswith (final_segment "/pyRevit.tab/Edit.panel") ".panel")
  ∧ (".panel" ≠ "" → endswith ("/pyRevit.tab/Edit.panel" +:+ String sep "") ".panel" = false).
Proof.
  apply (validity_is_about_the_final_segment ".panel" "/pyRevit.tab/Edit.panel").
  reflexivity.
Defined.

Lemma tab_stops_at_the_first_answer_witness :
  Tab_has_commands (H := sample_host) (sample_tab None)
    ([panel_A] ++ CommandObj flip_doors :: [panel_Edit])
  = Raise AttributeError.
Proof.
  destruct (tab_stops_at_the_first_answer (H := sample_host) (sample_tab None)
              [panel_A] [panel_Edit] (CommandObj flip_doors)) as (_ & Hcmd & _).
  - reflexivity.
  - left. reflexivity.
  - intros c ->%list_elem_of_singleton. reflexivity.
  - apply (Hcmd flip_doors). reflexivity.
Defined.

Lemma search_paths_start_with_the_library_witness :
  GenericCommand.get_search_paths flip_doors_more
  = join "/pyRevit.package/pyRevit.tab/Edit.panel/Flip doors.pushbutton"
      (COMPONENT_LIB_NAME (Host := sample_host)) :: ["/extra"; "/more"]
  ∧ GenericCommand.library_path flip_doors_more
    = join "/pyRevit.package/pyRevit.tab/Edit.panel/Flip doors.pushbutton"
        (COMPONENT_LIB_NAME (Host := sample_host))
  ∧ GenericCommand.directory flip_doors_more
    = "/pyRevit.package/pyRevit.tab/Edit.panel/Flip doors.pushbutton"
  ∧ GenericCommand.script_file flip_doors_more = GenericCommand.script_file flip_doors.
Proof.
  apply (search_paths_start_with_the_library (H := sample_host) GenericCommand.PushButton
           "/pyRevit.package/pyRevit.tab/Edit.panel/Flip doors.pushbutton" []
           [ {| lvl := DEBUG; fmt := "Command {}: Icon file is: {}";
                args := [PStr "Flip doors"; PNone] |} ]
           flip_doors ["/extra"; "/more"]).
  vm_compute. reflexivity.
Defined.

